(** * HttpServer: lifecycle, route binding and request authentication

    A shallow embedding of [src/core/server/http/http_server.ts].  The class
    [HttpServer] is a record of its private fields; its methods are
    computations in a state-and-exception monad over that record, so that a
    JavaScript [throw] keeps whatever the method had already written. *)

From Stdlib Require Import Ascii.
From stdpp Require Import base option list strings gmap.

(** ** JavaScript string primitives used by the server *)

Module JsString.

(** [s.startsWith(search)] *)
Fixpoint startsWith (s search : string) {struct search} : bool :=
  match search with
  | "" => true
  | String c search' =>
      match s with
      | "" => false
      | String d s' => if Ascii.eqb d c then startsWith s' search' else false
      end
  end.

(** [s.slice(n)] for a start index [n >= 0]. *)
Fixpoint slice (n : nat) (s : string) : string :=
  match n with
  | 0 => s
  | S n' => match s with
            | "" => ""
            | String _ s' => slice n' s'
            end
  end.

(** [s.endsWith(search)]: the last [search.length] code units of [s] are
    compared with [search]; a [search] longer than [s] never matches. *)
Definition endsWith (s search : string) : bool :=
  (String.length search <=? String.length s)%nat
  && String.eqb (slice (String.length s - String.length search) s) search.

(** [s.replace(pattern, replacement)] with a string pattern: only the first
    occurrence is replaced.  (The server only ever passes the replacement
    [''], so the [$]-escapes of replacement strings play no part.) *)
Fixpoint replace (s pattern replacement : string) : string :=
  if startsWith s pattern
  then replacement +:+ slice (String.length pattern) s
  else match s with
       | "" => ""
       | String c s' => String c (replace s' pattern replacement)
       end.

(** [s || d] on strings: the empty string is falsy. *)
Definition or_else (s d : string) : string :=
  match s with "" => d | _ => s end.

End JsString.

(** ** Route path joining *)

(** [HttpServer.getRouteFullPath] (http_server.ts, lines 217-222). *)
Definition getRouteFullPath (routerPath routePath : string) : string :=
  let routePathStartIndex :=
    if JsString.endsWith routerPath "/" && JsString.startsWith routePath "/"
    then 1 else 0 in
  routerPath +:+ JsString.slice routePathStartIndex routePath.

(** ** Completions and the method monad *)

Inductive JsError :=
| Error (message : string)
| TypeError (message : string).

(** How a call ends: it returns a value or throws. *)
Inductive Completion (A : Type) :=
| Normal (a : A)
| Throw (e : JsError).
Global Arguments Normal {A} a.
Global Arguments Throw {A} e.

Definition is_throw {A} (c : Completion A) : bool :=
  match c with Throw _ => true | Normal _ => false end.

(** A method over a receiver of type [S]: it ends in a completion and leaves
    the receiver in a new state, also when it throws. *)
Definition Method (S A : Type) : Type := S → Completion A * S.

Global Instance Method_ret {S} : MRet (Method S) :=
  λ A a st, (Normal a, st).
Global Instance Method_bind {S} : MBind (Method S) :=
  λ A B k m st,
    match m st with
    | (Normal a, st') => k a st'
    | (Throw e, st') => (Throw e, st')
    end.

Definition throw {S A} (e : JsError) : Method S A := λ st, (Throw e, st).
Definition gets {S A} (f : S → A) : Method S A := λ st, (Normal (f st), st).
Definition modify {S} (f : S → S) : Method S () := λ st, (Normal (), f st).

(** ** Requests *)

(** The identity of the underlying [IncomingMessage] object: the key of the
    two weak maps. *)
Definition IncomingMessage : Type := positive.

Record KibanaRequest := {
  unstable_getIncomingMessage : IncomingMessage;
  url_href : string;
}.

(** The request for [href] carried by the incoming message [im]. *)
Definition requestFor (im : IncomingMessage) (href : string) : KibanaRequest :=
  {| unstable_getIncomingMessage := im; url_href := href |}.

(** A hapi [Request]: [raw.req] and [url.href]. *)
Record HapiRequest := {
  raw_req : IncomingMessage;
  hapi_href : string;
}.

(** [KibanaRequest | Request] *)
Inductive AnyRequest :=
| OfKibana (request : KibanaRequest)
| OfHapi (request : HapiRequest).

(** [request instanceof KibanaRequest ? request.unstable_getIncomingMessage()
    : request.raw.req] *)
Definition incomingMessageOf (request : AnyRequest) : IncomingMessage :=
  match request with
  | OfKibana r => unstable_getIncomingMessage r
  | OfHapi r => raw_req r
  end.

(** [KibanaRequest.from(req)]: the wrapper keeps the incoming message. *)
Definition KibanaRequest_from (req : HapiRequest) : KibanaRequest :=
  {| unstable_getIncomingMessage := raw_req req; url_href := hapi_href req |}.

(** An opaque JavaScript value (the session state is of type [unknown]). *)
Inductive JsValue :=
| JsUndefined
| JsData (payload : string).

(** ** Configuration *)

Record HttpConfig := {
  basePath : option string;
  rewriteBasePath : bool;
  host : string;
  port : nat;
}.

Record ServerOptions := {
  opt_host : string;
  opt_port : nat;
}.

(** Modelled from the spec: [getServerOptions] of [http_tools] is not part of
    the sources at hand; it derives the listener's host and port options from
    the configuration. *)
Definition getServerOptions (config : HttpConfig) : ServerOptions :=
  {| opt_host := host config; opt_port := port config |}.

(** ** Lifecycle handlers *)

(** What a lifecycle handler answers through its toolkit. *)
Inductive LifecycleResult :=
| next
| rejected (error : string) (statusCode : nat)
| redirected (url : string) (forward : bool).

Definition OnPreAuthHandler : Type := KibanaRequest → LifecycleResult.
Definition OnPostAuthHandler : Type := KibanaRequest → LifecycleResult.
Definition OnPreResponseHandler : Type := KibanaRequest → LifecycleResult.

(** What an authentication handler answers. *)
Inductive AuthResult :=
| authenticated (state : JsValue)
| auth_rejected (error : string) (statusCode : nat)
| auth_redirected (url : string).

(** The handler sees the request and the session state found in the cookie
    store ([JsUndefined] when there is none). *)
Definition AuthenticationHandler : Type := KibanaRequest → JsValue → AuthResult.

Record SessionStorageCookieOptions := {
  cookie_name : string;
  encryptionKey : string;
  isSecure : bool;
}.

(** What [createCookieSessionStorageFactory] resolves to. *)
Record SessionStorageFactory := {
  storage_options : SessionStorageCookieOptions;
  storage_path : option string;
}.

(** ** Routers *)

Record ResponseObject := {
  res_statusCode : nat;
  res_payload : string;
}.

Definition RequestHandler : Type := HapiRequest → ResponseObject.

Record RouterRoute := {
  route_method : string;
  route_path : string;
  route_handler : RequestHandler;
  authRequired : bool;
}.

(** A [Router] object; [router_id] is its identity, by which the
    [Set<Router>] of the server tells routers apart.  [routes] is what
    [getRoutes()] returns when [start] reads it. *)
Record Router := {
  router_id : positive;
  path : string;
  routes : list RouterRoute;
}.

(** ** The hapi server *)

(** The [options.auth] of a bound route: [undefined] leaves the route to the
    server's default strategy, [false] switches authentication off for it. *)
Inductive RouteAuth :=
| AuthDefault
| AuthOff.

Record ServerRoute := {
  sr_handler : RequestHandler;
  sr_method : string;
  sr_path : string;
  sr_auth : RouteAuth;
}.

(** The object handed to [server.auth.scheme]: the authentication handler,
    adapted, with the session storage it reads. *)
Record AuthScheme := {
  scheme_handler : AuthenticationHandler;
  scheme_storage : SessionStorageFactory;
}.

(** Modelled from the spec: the hapi [Server] is an external collaborator.
    Of its state the model keeps what [HttpServer] reads and writes: the
    options it was created with, whether the listener is listening, the three
    ordered chains of extension points, the route table, and the
    authentication schemes, strategies and default strategy. *)
Record Server := {
  settings : ServerOptions;
  listening : bool;
  ext_onRequest : list OnPreAuthHandler;
  ext_onPostAuth : list OnPostAuthHandler;
  ext_onPreResponse : list OnPreResponseHandler;
  table : list ServerRoute;
  auth_schemes : gmap string AuthScheme;
  auth_strategies : gmap string string;
  auth_default : option string;
}.

(** Modelled from the spec: [createServer] of [http_tools] builds a fresh
    listener from the options; it is not listening and nothing is installed
    on it. *)
Definition createServer (serverOptions : ServerOptions) : Server :=
  {| settings := serverOptions; listening := false;
     ext_onRequest := []; ext_onPostAuth := []; ext_onPreResponse := [];
     table := []; auth_schemes := ∅; auth_strategies := ∅;
     auth_default := None |}.

(** [server.ext('onRequest', h)] and its two siblings append to a chain. *)
Definition Server_ext_onRequest (h : OnPreAuthHandler) (srv : Server) : Server :=
  {| settings := settings srv; listening := listening srv;
     ext_onRequest := ext_onRequest srv ++ [h];
     ext_onPostAuth := ext_onPostAuth srv;
     ext_onPreResponse := ext_onPreResponse srv;
     table := table srv; auth_schemes := auth_schemes srv;
     auth_strategies := auth_strategies srv; auth_default := auth_default srv |}.

Definition Server_ext_onPostAuth (h : OnPostAuthHandler) (srv : Server) : Server :=
  {| settings := settings srv; listening := listening srv;
     ext_onRequest := ext_onRequest srv;
     ext_onPostAuth := ext_onPostAuth srv ++ [h];
     ext_onPreResponse := ext_onPreResponse srv;
     table := table srv; auth_schemes := auth_schemes srv;
     auth_strategies := auth_strategies srv; auth_default := auth_default srv |}.

Definition Server_ext_onPreResponse (h : OnPreResponseHandler) (srv : Server) : Server :=
  {| settings := settings srv; listening := listening srv;
     ext_onRequest := ext_onRequest srv;
     ext_onPostAuth := ext_onPostAuth srv;
     ext_onPreResponse := ext_onPreResponse srv ++ [h];
     table := table srv; auth_schemes := auth_schemes srv;
     auth_strategies := auth_strategies srv; auth_default := auth_default srv |}.

(** [server.route(r)] *)
Definition Server_route (r : ServerRoute) (srv : Server) : Server :=
  {| settings := settings srv; listening := listening srv;
     ext_onRequest := ext_onRequest srv;
     ext_onPostAuth := ext_onPostAuth srv;
     ext_onPreResponse := ext_onPreResponse srv;
     table := table srv ++ [r]; auth_schemes := auth_schemes srv;
     auth_strategies := auth_strategies srv; auth_default := auth_default srv |}.

(** [server.start()] and [server.stop()], once they have succeeded. *)
Definition Server_set_listening (b : bool) (srv : Server) : Server :=
  {| settings := settings srv; listening := b;
     ext_onRequest := ext_onRequest srv;
     ext_onPostAuth := ext_onPostAuth srv;
     ext_onPreResponse := ext_onPreResponse srv;
     table := table srv; auth_schemes := auth_schemes srv;
     auth_strategies := auth_strategies srv; auth_default := auth_default srv |}.

(** [server.auth.scheme(name, ...)], [server.auth.strategy(name, scheme)] and
    [server.auth.default(name)]. *)
Definition Server_auth_scheme (name : string) (sch : AuthScheme) (srv : Server) : Server :=
  {| settings := settings srv; listening := listening srv;
     ext_onRequest := ext_onRequest srv;
     ext_onPostAuth := ext_onPostAuth srv;
     ext_onPreResponse := ext_onPreResponse srv;
     table := table srv; auth_schemes := <[name := sch]> (auth_schemes srv);
     auth_strategies := auth_strategies srv; auth_default := auth_default srv |}.

Definition Server_auth_strategy (name scheme : string) (srv : Server) : Server :=
  {| settings := settings srv; listening := listening srv;
     ext_onRequest := ext_onRequest srv;
     ext_onPostAuth := ext_onPostAuth srv;
     ext_onPreResponse := ext_onPreResponse srv;
     table := table srv; auth_schemes := auth_schemes srv;
     auth_strategies := <[name := scheme]> (auth_strategies srv);
     auth_default := auth_default srv |}.

Definition Server_auth_default (name : string) (srv : Server) : Server :=
  {| settings := settings srv; listening := listening srv;
     ext_onRequest := ext_onRequest srv;
     ext_onPostAuth := ext_onPostAuth srv;
     ext_onPreResponse := ext_onPreResponse srv;
     table := table srv; auth_schemes := auth_schemes srv;
     auth_strategies := auth_strategies srv; auth_default := Some name |}.

(** ** URL rewriting *)

(** The parts of a URL that [modifyUrl] hands to its modifier.  The requests
    reaching the server carry an origin-form target (path, query, fragment),
    so the protocol, host and port parts stay empty and are left out. *)
Record URLMeaningfulParts := {
  pathname : option string;
  query : string;
  hash : string;
}.

(** The object literal [{}]. *)
Definition emptyParts : URLMeaningfulParts :=
  {| pathname := None; query := ""; hash := "" |}.

(** [split_at c s] cuts [s] in front of the first [c]. *)
Fixpoint split_at (c : Ascii.ascii) (s : string) : string * string :=
  match s with
  | "" => ("", "")
  | String d s' =>
      if Ascii.eqb d c then ("", s)
      else let '(before, rest) := split_at c s' in (String d before, rest)
  end.

(** Modelled from the spec: [modifyUrl] of [utils] is not part of the sources
    at hand.  It parses the URL into its parts, lets the modifier change them
    in place or return new ones, and formats the outcome back into a string.
    The path ends in front of the first [?] or [#]; an empty path is parsed
    as [null].  Query and fragment are carried through as they are. *)
Definition parseUrl (url : string) : URLMeaningfulParts :=
  let '(front, fragment) := split_at "#"%char url in
  let '(p, q) := split_at "?"%char front in
  {| pathname := match p with "" => None | _ => Some p end;
     query := q; hash := fragment |}.

Definition formatUrl (parts : URLMeaningfulParts) : string :=
  default "" (pathname parts) +:+ query parts +:+ hash parts.

(** A modifier leaves the parts it was given in some state and returns new
    parts or nothing; [modifyUrl] formats [returned || parts]. *)
Definition UrlModifier : Type :=
  URLMeaningfulParts → URLMeaningfulParts * option URLMeaningfulParts.

Definition modifyUrl (url : string) (urlModifier : UrlModifier) : string :=
  let '(parts, returned) := urlModifier (parseUrl url) in
  formatUrl (default parts returned).

(** The modifier of [setupBasePathRewrite] (lines 201-207). *)
Definition stripBasePath (basePath : string) : UrlModifier :=
  λ urlParts,
    match pathname urlParts with
    | Some p =>
        if JsString.startsWith p basePath
        then ({| pathname :=
                   Some (JsString.or_else (JsString.replace p basePath "") "/");
                 query := query urlParts; hash := hash urlParts |}, None)
        else (urlParts, Some emptyParts)
    | None => (urlParts, Some emptyParts)
    end.

(** The PreAuth hook registered by [setupBasePathRewrite] (lines 200-214);
    [!newURL] holds of the empty string only. *)
Definition basePathRewriteHook (basePath : string) : OnPreAuthHandler :=
  λ request,
    let newURL := modifyUrl (url_href request) (stripBasePath basePath) in
    match newURL with
    | "" => rejected "not found" 404
    | _ => redirected newURL true
    end.

(** ** The server object *)

(** The private fields of [HttpServer].  [registeredRouters] is a
    [Set<Router>]: no router twice, iterated in insertion order.  The weak
    maps are finite maps keyed by the identity of the incoming message.  The
    logger is left out: logging changes none of these fields. *)
Record HttpServer := {
  server : option Server;
  registeredRouters : list Router;
  authRegistered : bool;
  basePathCache : gmap IncomingMessage string;
  authState : gmap IncomingMessage JsValue;
}.

(** [new HttpServer(log)] *)
Definition newHttpServer : HttpServer :=
  {| server := None; registeredRouters := []; authRegistered := false;
     basePathCache := ∅; authState := ∅ |}.

Definition set_server (v : option Server) (this : HttpServer) : HttpServer :=
  {| server := v; registeredRouters := registeredRouters this;
     authRegistered := authRegistered this;
     basePathCache := basePathCache this; authState := authState this |}.

Definition set_registeredRouters (v : list Router) (this : HttpServer) : HttpServer :=
  {| server := server this; registeredRouters := v;
     authRegistered := authRegistered this;
     basePathCache := basePathCache this; authState := authState this |}.

Definition set_authRegistered (v : bool) (this : HttpServer) : HttpServer :=
  {| server := server this; registeredRouters := registeredRouters this;
     authRegistered := v;
     basePathCache := basePathCache this; authState := authState this |}.

Definition set_basePathCache (v : gmap IncomingMessage string) (this : HttpServer) : HttpServer :=
  {| server := server this; registeredRouters := registeredRouters this;
     authRegistered := authRegistered this;
     basePathCache := v; authState := authState this |}.

Definition set_authState (v : gmap IncomingMessage JsValue) (this : HttpServer) : HttpServer :=
  {| server := server this; registeredRouters := registeredRouters this;
     authRegistered := authRegistered this;
     basePathCache := basePathCache this; authState := v |}.

(** [Set.prototype.has] and [Set.prototype.add] on routers. *)
Definition Set_has (router : Router) (routers : list Router) : bool :=
  existsb (λ r, Pos.eqb (router_id r) (router_id router)) routers.

Definition Set_add (router : Router) (routers : list Router) : list Router :=
  if Set_has router routers then routers else routers ++ [router].

(** The capability object returned by [setup].  Its function members are the
    methods below, bound to the server object; [registerAuth] and
    [getBasePathFor] are bound to the configuration [setup] was given.
    [setup_server] is [this.server] as read when the object is built. *)
Record HttpServerSetup := {
  setup_options : ServerOptions;
  setup_config : HttpConfig;
  setup_server : option Server;
}.

(** [isListening] (lines 91-93) *)
Definition isListening : Method HttpServer bool :=
  gets (λ this,
    match server this with
    | Some srv => listening srv
    | None => false
    end).

(** [registerRouter] (lines 95-102) *)
Definition registerRouter (router : Router) : Method HttpServer () :=
  l ← isListening;
  if l : bool
  then throw (Error "Routers can be registered only when HTTP server is stopped.")
  else modify (λ this,
         set_registeredRouters (Set_add router (registeredRouters this)) this).

(** [getBasePathFor] (lines 105-112) *)
Definition getBasePathFor (config : HttpConfig) (request : AnyRequest)
  : Method HttpServer string :=
  gets (λ this,
    let incomingMessage := incomingMessageOf request in
    let requestScopePath :=
      JsString.or_else (default "" (basePathCache this !! incomingMessage)) "" in
    let serverBasePath := JsString.or_else (default "" (basePath config)) "" in
    serverBasePath +:+ requestScopePath).

(** [setBasePathFor] (lines 115-124) *)
Definition setBasePathFor (request : AnyRequest) (basePath : string)
  : Method HttpServer () :=
  let incomingMessage := incomingMessageOf request in
  has ← gets (λ this, bool_decide (is_Some (basePathCache this !! incomingMessage)));
  if has : bool
  then throw (Error "Request basePath was previously set. Setting multiple times is not supported.")
  else modify (λ this,
         set_basePathCache (<[incomingMessage := basePath]> (basePathCache this)) this).

(** [registerOnPostAuth], [registerOnPreAuth], [registerOnPreResponse]
    (lines 224-246).  The adapters to hapi's extension format wrap the
    handler without changing what it answers; the chain holds the handler. *)
Definition registerOnPostAuth (fn : OnPostAuthHandler) : Method HttpServer () :=
  s ← gets server;
  match s with
  | None => throw (Error "Server is not created yet")
  | Some srv => modify (set_server (Some (Server_ext_onPostAuth fn srv)))
  end.

Definition registerOnPreAuth (fn : OnPreAuthHandler) : Method HttpServer () :=
  s ← gets server;
  match s with
  | None => throw (Error "Server is not created yet")
  | Some srv => modify (set_server (Some (Server_ext_onRequest fn srv)))
  end.

Definition registerOnPreResponse (fn : OnPreResponseHandler) : Method HttpServer () :=
  s ← gets server;
  match s with
  | None => throw (Error "Server is not created yet")
  | Some srv => modify (set_server (Some (Server_ext_onPreResponse fn srv)))
  end.

(** [setupBasePathRewrite] (lines 194-215) *)
Definition setupBasePathRewrite (config : HttpConfig) : Method HttpServer () :=
  match basePath config with
  | None => mret ()
  | Some basePath =>
      if negb (rewriteBasePath config) then mret ()
      else registerOnPreAuth (basePathRewriteHook basePath)
  end.

(** [setup] (lines 126-153) *)
Definition setup (config : HttpConfig) : Method HttpServer HttpServerSetup :=
  let serverOptions := getServerOptions config in
  modify (set_server (Some (createServer serverOptions)));;
  setupBasePathRewrite config;;
  s ← gets server;
  mret {| setup_options := serverOptions; setup_config := config;
          setup_server := s |}.

(** The route [start] binds for one route of one router (lines 163-171). *)
Definition bindRoute (authRegistered : bool) (router : Router) (route : RouterRoute)
  : ServerRoute :=
  let isAuthRequired := authRegistered && authRequired route in
  {| sr_handler := route_handler route;
     sr_method := route_method route;
     sr_path := getRouteFullPath (path router) (route_path route);
     sr_auth := if isAuthRequired then AuthDefault else AuthOff |}.

(** [start] (lines 155-182).  [listen] is how [server.start()] ends: with
    [None] the listener is listening, with an error the promise rejects and
    the routes stay bound. *)
Definition start (config : HttpConfig) (listen : option JsError)
  : Method HttpServer () :=
  s ← gets server;
  match s with
  | None => throw (Error "Http server is not setup up yet")
  | Some srv =>
      this ← gets id;
      let bound :=
        foldl (λ acc router,
                 foldl (λ acc' route,
                          Server_route (bindRoute (authRegistered this) router route) acc')
                       acc (routes router))
              srv (registeredRouters this) in
      modify (set_server (Some bound));;
      match listen with
      | Some e => throw e
      | None => modify (set_server (Some (Server_set_listening true bound)))
      end
  end.

(** [stop] (lines 184-192).  [halt] is how [server.stop()] ends: with [None]
    the listener is released and [this.server] is cleared, with an error the
    promise rejects in front of the assignment and the listener stays. *)
Definition stop (halt : option JsError) : Method HttpServer () :=
  s ← gets server;
  match s with
  | None => mret ()
  | Some srv =>
      match halt with
      | Some e => throw e
      | None => modify (set_server None)
      end
  end.

(** ** Authentication *)

Module AuthStatus.
Inductive t :=
| authenticated
| unauthenticated
| unknown.
End AuthStatus.

(** What [getAuthData] returns. *)
Record AuthData := {
  status : AuthStatus.t;
  state : JsValue;
}.

(** [registerAuth] (lines 248-279) is an [async] method: it runs up to its
    [await] when called and the rest once the session storage factory has
    settled.  [registerAuth_enter] is the part in front of the [await] (lines
    253-259); it hands on the server it passes to
    [createCookieSessionStorageFactory]. *)
Definition registerAuth_enter : Method HttpServer Server :=
  s ← gets server;
  match s with
  | None => throw (Error "Server is not created yet")
  | Some srv =>
      registered ← gets authRegistered;
      if registered : bool
      then throw (Error "Auth interceptor was already registered")
      else modify (set_authRegistered true);; mret srv
  end.

(** The part behind the [await] (lines 261-278).  [sessionStorage] is how the
    awaited promise settled: a rejection is rethrown.  [this.server] is read
    again; were it [undefined] by now, [this.server.auth] is a [TypeError]. *)
Definition registerAuth_resume (fn : AuthenticationHandler)
    (sessionStorage : Completion SessionStorageFactory) : Method HttpServer () :=
  match sessionStorage with
  | Throw e => throw e
  | Normal storage =>
      s ← gets server;
      match s with
      | None => throw (TypeError "Cannot read property 'auth' of undefined")
      | Some srv =>
          let scheme := {| scheme_handler := fn; scheme_storage := storage |} in
          modify (set_server (Some
            (Server_auth_default "session"
              (Server_auth_strategy "session" "login"
                (Server_auth_scheme "login" scheme srv)))))
      end
  end.

(** The session storage factory, as the environment provides it. *)
Definition CookieSessionStorageFactory : Type :=
  Server → SessionStorageCookieOptions → option string →
  Completion SessionStorageFactory.

(** [registerAuth] run without anything happening at its [await]. *)
Definition registerAuth (fn : AuthenticationHandler)
    (cookieOptions : SessionStorageCookieOptions) (basePath : option string)
    (createCookieSessionStorageFactory : CookieSessionStorageFactory)
  : Method HttpServer () :=
  srv ← registerAuth_enter;
  registerAuth_resume fn (createCookieSessionStorageFactory srv cookieOptions basePath).

(** The callback [registerAuth] gives to the scheme (lines 268-270). *)
Definition onAuthSuccess (req : HapiRequest) (st : JsValue) : Method HttpServer () :=
  modify (λ this, set_authState (<[raw_req req := st]> (authState this)) this).

(** Modelled from the spec: [adoptToHapiAuthFormat] of [lifecycle/auth] is
    not part of the sources at hand.  On each request the scheme invokes the
    handler with the request and the existing session state; on an
    authenticated result it records the returned state against the request
    identity through [onSuccess]; other results record nothing. *)
Definition interceptAuth {S} (fn : AuthenticationHandler)
    (onSuccess : HapiRequest → JsValue → Method S ())
    (req : HapiRequest) (existing : JsValue) : Method S AuthResult :=
  let result := fn (KibanaRequest_from req) existing in
  match result with
  | authenticated st => onSuccess req st;; mret result
  | _ => mret result
  end.

(** [getAuthData] (lines 280-293); [WeakMap.get] of a missing key is
    [undefined]. *)
Definition getAuthData (request : AnyRequest) : Method HttpServer AuthData :=
  gets (λ this,
    let incomingMessage := incomingMessageOf request in
    let hasState := bool_decide (is_Some (authState this !! incomingMessage)) in
    let st := default JsUndefined (authState this !! incomingMessage) in
    let status :=
      if hasState then AuthStatus.authenticated
      else if authRegistered this then AuthStatus.unauthenticated
      else AuthStatus.unknown in
    {| status := status; state := st |}).

Definition AuthStatus_eqb (a b : AuthStatus.t) : bool :=
  match a, b with
  | AuthStatus.authenticated, AuthStatus.authenticated
  | AuthStatus.unauthenticated, AuthStatus.unauthenticated
  | AuthStatus.unknown, AuthStatus.unknown => true
  | _, _ => false
  end.

(** [isAuthenticated] (lines 294-296) *)
Definition isAuthenticated (request : AnyRequest) : Method HttpServer bool :=
  data ← getAuthData request;
  mret (AuthStatus_eqb (status data) AuthStatus.authenticated).

(** ** Histories of a server instance *)

(** Besides the server object, a running system holds the [registerAuth]
    calls suspended at their [await], and the hapi servers that a later
    [setup] has replaced: [setup] does not stop them, so they may still
    answer requests and run the scheme installed on them. *)
Record World := {
  this : HttpServer;
  suspended : list AuthenticationHandler;
  detached : list Server;
}.

Definition newWorld : World :=
  {| this := newHttpServer; suspended := []; detached := [] |}.

(** A method of the server object, run in a world. *)
Definition on_this {A} (m : Method HttpServer A) : Method World A :=
  λ w,
    let '(r, st) := m (this w) in
    (r, {| this := st; suspended := suspended w; detached := detached w |}).

(** What can happen to a server instance: the calls of its contract, the
    settling of an awaited session storage factory, and an incoming request
    reaching the [login] scheme of the current server ([None]) or of a
    replaced one ([Some k]). *)
Inductive Call :=
| Call_setup (config : HttpConfig)
| Call_start (config : HttpConfig) (listen : option JsError)
| Call_stop (halt : option JsError)
| Call_registerRouter (router : Router)
| Call_registerOnPreAuth (fn : OnPreAuthHandler)
| Call_registerOnPostAuth (fn : OnPostAuthHandler)
| Call_registerOnPreResponse (fn : OnPreResponseHandler)
| Call_registerAuth (fn : AuthenticationHandler)
    (cookieOptions : SessionStorageCookieOptions) (basePath : option string)
| Settle_registerAuth (sessionStorage : Completion SessionStorageFactory)
| Call_setBasePathFor (request : AnyRequest) (basePath : string)
| Incoming (replaced : option nat) (req : HapiRequest) (existing : JsValue).

Definition login_scheme (w : World) (replaced : option nat) : option AuthScheme :=
  srv ← match replaced with
        | None => server (this w)
        | Some k => detached w !! k
        end;
  auth_schemes srv !! "login".

Definition exec (c : Call) : Method World () :=
  match c with
  | Call_setup config =>
      old ← gets (λ w, server (this w));
      on_this (setup config);;
      modify (λ w, {| this := this w; suspended := suspended w;
                      detached := detached w ++ option_list old |})
  | Call_start config listen => on_this (start config listen)
  | Call_stop halt => on_this (stop halt)
  | Call_registerRouter router => on_this (registerRouter router)
  | Call_registerOnPreAuth fn => on_this (registerOnPreAuth fn)
  | Call_registerOnPostAuth fn => on_this (registerOnPostAuth fn)
  | Call_registerOnPreResponse fn => on_this (registerOnPreResponse fn)
  | Call_registerAuth fn cookieOptions basePath =>
      on_this registerAuth_enter;;
      modify (λ w, {| this := this w; suspended := suspended w ++ [fn];
                      detached := detached w |})
  | Settle_registerAuth sessionStorage =>
      waiting ← gets suspended;
      match waiting with
      | [] => mret ()
      | fn :: rest =>
          modify (λ w, {| this := this w; suspended := rest;
                          detached := detached w |});;
          on_this (registerAuth_resume fn sessionStorage)
      end
  | Call_setBasePathFor request basePath =>
      on_this (setBasePathFor request basePath)
  | Incoming replaced req existing =>
      scheme ← gets (λ w, login_scheme w replaced);
      match scheme with
      | None => mret ()
      | Some sch =>
          on_this (interceptAuth (scheme_handler sch) onAuthSuccess req existing);;
          mret ()
      end
  end.

(** The world after a history; a call that throws leaves the world as the
    throwing method left it. *)
Definition run (calls : list Call) (w : World) : World :=
  foldl (λ w c, (exec c w).2) w calls.

(** Whether some [registerAuth] call of the history passed its checks. *)
Fixpoint auth_ever_registered (calls : list Call) (w : World) : bool :=
  match calls with
  | [] => false
  | c :: calls' =>
      match c with
      | Call_registerAuth _ _ _ => negb (is_throw (exec c w).1)
      | _ => false
      end
      || auth_ever_registered calls' (exec c w).2
  end.

(** Nothing of authentication exists yet: no request has an auth record, no
    [registerAuth] call is suspended, and no server, current or replaced,
    has a [login] scheme. *)
Definition auth_untouched (w : World) : Prop :=
  authState (this w) = ∅
  ∧ suspended w = []
  ∧ (∀ srv, server (this w) = Some srv → auth_schemes srv !! "login" = None)
  ∧ (∀ srv, srv ∈ detached w → auth_schemes srv !! "login" = None).

(** ** A sample deployment *)

Module Sample.

Definition config : HttpConfig :=
  {| basePath := Some "/app"; rewriteBasePath := true;
     host := "localhost"; port := 80 |}.

Definition cookieOptions : SessionStorageCookieOptions :=
  {| cookie_name := "sid"; encryptionKey := "something_at_least_32_characters";
     isSecure := false |}.

Definition storage : SessionStorageFactory :=
  {| storage_options := cookieOptions; storage_path := Some "/app" |}.

(** A handler that lets everybody in as the same user. *)
Definition letIn : AuthenticationHandler :=
  λ _ _, authenticated (JsData "alice").

Definition ok : RequestHandler :=
  λ _, {| res_statusCode := 200; res_payload := "ok" |}.

Definition router : Router :=
  {| router_id := 1; path := "/api/";
     routes :=
       [ {| route_method := "GET"; route_path := "/widgets";
            route_handler := ok; authRequired := true |};
         {| route_method := "GET"; route_path := "/status";
            route_handler := ok; authRequired := false |} ] |}.

Definition request : HapiRequest :=
  {| raw_req := 5%positive; hapi_href := "/api/widgets" |}.

(** A server object set up with [router] registered. *)
Definition configured : World :=
  run [Call_setup config; Call_registerRouter router] newWorld.

(** The same with an authentication scheme installed. *)
Definition secured : World :=
  run [Call_registerAuth letIn cookieOptions (Some "/app");
       Settle_registerAuth (Normal storage)] configured.



(** A factory that fails. *)
Definition failing : CookieSessionStorageFactory :=
  λ _ _ _, Throw (Error "cookie plugin failed").

End Sample.

(** ** Reading histories *)





(** How many [registerAuth] calls of a history pass their checks. *)
Fixpoint registerAuth_passes (calls : list Call) (w : World) : nat :=
  match calls with
  | [] => 0
  | c :: calls' =>
      match c with
      | Call_registerAuth _ _ _ => if is_throw (exec c w).1 then 0 else 1
      | _ => 0
      end
      + registerAuth_passes calls' (exec c w).2
  end.

(** The registered-auth flag is set and no [registerAuth] call is waiting,
    yet the current server has neither a [login] scheme nor a default
    strategy. *)
Definition auth_lost (w : World) : Prop :=
  authRegistered (this w) = true
  ∧ suspended w = []
  ∧ (∀ srv, server (this w) = Some srv →
       auth_schemes srv !! "login" = None ∧ auth_default srv = None).

(** * Properties *)

(** ** Facts about the string primitives *)

Section JsStringFacts.
Import JsString.

Lemma str_app_cons (c : Ascii.ascii) (s t : string) :
  String c s +:+ t = String c (s +:+ t).
Proof. reflexivity. Qed.

Lemma str_app_nil_r (s : string) : s +:+ "" = s.
Proof. induction s as [|c s IH]; [done|]. by rewrite str_app_cons, IH. Qed.

Lemma str_app_assoc (a b c : string) : (a +:+ b) +:+ c = a +:+ (b +:+ c).
Proof. induction a as [|x a IH]; [done|]. by rewrite !str_app_cons, IH. Qed.

Lemma str_length_app (a b : string) :
  String.length (a +:+ b) = String.length a + String.length b.
Proof. induction a as [|x a IH]; [done|]. rewrite str_app_cons. cbn. by rewrite IH. Qed.

Lemma startsWith_app (p r : string) : startsWith (p +:+ r) p = true.
Proof.
  induction p as [|c p IH]; [done|].
  rewrite str_app_cons. cbn. by rewrite Ascii.eqb_refl.
Qed.

Lemma startsWith_inv (s p : string) :
  startsWith s p = true → ∃ r, s = p +:+ r.
Proof.
  revert s. induction p as [|c p IH]; intros s H.
  - by exists s.
  - destruct s as [|d s]; [done|]. cbn in H.
    destruct (Ascii.eqb d c) eqn:E; [|done].
    apply Ascii.eqb_eq in E as ->.
    destruct (IH _ H) as [r ->]. by exists r.
Qed.

Lemma startsWith_iff (s p : string) :
  startsWith s p = true ↔ ∃ r, s = p +:+ r.
Proof.
  split; [apply startsWith_inv|]. intros [r ->]. apply startsWith_app.
Qed.

Lemma slice_app (p r : string) : slice (String.length p) (p +:+ r) = r.
Proof. induction p as [|c p IH]; [done|]. exact IH. Qed.

Lemma slice_split (n : nat) (s : string) :
  (n ≤ String.length s)%nat →
  ∃ a, s = a +:+ slice n s ∧ String.length a = n.
Proof.
  revert s. induction n as [|n IH]; intros s Hn.
  - by exists "".
  - destruct s as [|c s]; [cbn in Hn; lia|].
    cbn in Hn. destruct (IH s) as (a & Ha & Hl); [lia|].
    exists (String c a). rewrite str_app_cons. cbn.
    split; [by rewrite <- Ha | by rewrite Hl].
Qed.

Lemma endsWith_app (r p : string) : endsWith (r +:+ p) p = true.
Proof.
  unfold endsWith. rewrite str_length_app.
  replace (String.length r + String.length p - String.length p)
    with (String.length r) by lia.
  rewrite slice_app, String.eqb_refl, andb_true_r.
  apply Nat.leb_le. lia.
Qed.

Lemma endsWith_inv (s p : string) :
  endsWith s p = true → ∃ r, s = r +:+ p.
Proof.
  unfold endsWith. intros [Hle Heq]%andb_true_iff.
  apply Nat.leb_le in Hle. apply String.eqb_eq in Heq.
  destruct (slice_split (String.length s - String.length p) s)
    as (a & Ha & _); [lia|].
  exists a. by rewrite Heq in Ha.
Qed.

Lemma endsWith_iff (s p : string) :
  endsWith s p = true ↔ ∃ r, s = r +:+ p.
Proof.
  split; [apply endsWith_inv|]. intros [r ->]. apply endsWith_app.
Qed.

(** A pattern that is a prefix is the first occurrence: [replace] cuts it
    off the front. *)
Lemma replace_prefix (p r repl : string) :
  replace (p +:+ r) p repl = repl +:+ r.
Proof.
  destruct (p +:+ r) as [|c s] eqn:E.
  - destruct p; [|done]. by destruct r.
  - cbn [replace]. rewrite <- E, startsWith_app. by rewrite slice_app.
Qed.

End JsStringFacts.

(** ** Route path joining *)

Section RoutePaths.
Import JsString.

Lemma getRouteFullPath_collapse (p q : string) :
  getRouteFullPath (p +:+ "/") ("/" +:+ q) = p +:+ "/" +:+ q.
Proof.
  unfold getRouteFullPath.
  rewrite endsWith_app, startsWith_app. cbn [andb slice].
  by rewrite str_app_assoc.
Qed.

Lemma getRouteFullPath_concat (routerPath routePath : string) :
  endsWith routerPath "/" && startsWith routePath "/" = false →
  getRouteFullPath routerPath routePath = routerPath +:+ routePath.
Proof. unfold getRouteFullPath. by intros ->. Qed.

(** C3, as the code has it: the full path is the router's path followed by
    the route's path, less one slash when the former ends with a slash and
    the latter starts with one.  Nothing else is done to the two paths: the
    prefix [/api/] and the route path [/widgets] give [/api/widgets], and the
    prefix [/api] and the route path [widgets] give [/apiwidgets], no slash
    being put between them. *)
Theorem getRouteFullPath_join (routerPath routePath : string) :
  (∀ p q, routerPath = p +:+ "/" → routePath = "/" +:+ q →
          getRouteFullPath routerPath routePath = p +:+ "/" +:+ q)
  ∧ ((¬ ∃ p, routerPath = p +:+ "/") ∨ (¬ ∃ q, routePath = "/" +:+ q) →
     getRouteFullPath routerPath routePath = routerPath +:+ routePath)
  ∧ getRouteFullPath "/api/" "/widgets" = "/api/widgets"
  ∧ getRouteFullPath "/api" "widgets" = "/apiwidgets".
Proof.
  split; [|split; [|split; reflexivity]].
  - intros p q -> ->. apply getRouteFullPath_collapse.
  - intros H. apply getRouteFullPath_concat.
    apply andb_false_iff.
    destruct H as [H|H]; [left|right]; apply not_true_is_false; intros E;
      apply H; [by apply endsWith_iff | by apply startsWith_iff].
Qed.

Lemma getRouteFullPath_join_witness :
  getRouteFullPath "/api/" "/widgets" = "/api" +:+ "/" +:+ "widgets"
  ∧ getRouteFullPath "/api" "/widgets" = "/api" +:+ "/widgets".
Proof.
  split.
  - destruct (getRouteFullPath_join "/api/" "/widgets") as (H & _).
    apply H; reflexivity.
  - destruct (getRouteFullPath_join "/api" "/widgets") as (_ & H & _).
    apply H. left. intros [p Hp]. apply (f_equal (λ s, endsWith s "/")) in Hp.
    rewrite endsWith_app in Hp. discriminate Hp.
Defined.

(** C3, as stated, fails on the second example: joining the prefix [/api]
    and the route path [widgets] does produce [/apiwidgets]. *)
Lemma getRouteFullPath_api_widgets :
  getRouteFullPath "/api" "widgets" = "/apiwidgets".
Proof. reflexivity. Qed.

End RoutePaths.

(** ** Running methods *)

Ltac unfold_method :=
  unfold mbind, mret, Method_bind, Method_ret, throw, gets, modify in *.

(** ** Base path rewriting *)

Section BasePathRewrite.
Import JsString.

Lemma or_else_app_nonempty (rest q h : string) :
  or_else rest "/" +:+ q +:+ h ≠ "".
Proof. destruct rest; cbn [or_else]; rewrite str_app_cons; discriminate. Qed.

(** A path that starts with the base path is forwarded, the base path cut
    off its front and the rest of the URL kept. *)
Lemma basePathRewriteHook_forward (basePath rest : string) (request : KibanaRequest) :
  pathname (parseUrl (url_href request)) = Some (basePath +:+ rest) →
  basePathRewriteHook basePath request =
    redirected (or_else rest "/" +:+ query (parseUrl (url_href request))
                  +:+ hash (parseUrl (url_href request))) true.
Proof.
  intros Hp. unfold basePathRewriteHook, modifyUrl, stripBasePath.
  rewrite Hp, startsWith_app, replace_prefix.
  change ("" +:+ rest) with rest.
  unfold formatUrl. cbn.
  pose proof (or_else_app_nonempty rest (query (parseUrl (url_href request)))
                (hash (parseUrl (url_href request)))) as Hne.
  by destruct (or_else rest "/" +:+ _ +:+ _).
Qed.

(** Any other request is rejected. *)
Lemma basePathRewriteHook_reject (basePath : string) (request : KibanaRequest) :
  (¬ ∃ rest, pathname (parseUrl (url_href request)) = Some (basePath +:+ rest)) →
  basePathRewriteHook basePath request = rejected "not found" 404.
Proof.
  intros Hno. unfold basePathRewriteHook, modifyUrl, stripBasePath.
  destruct (pathname (parseUrl (url_href request))) as [p|]; [|reflexivity].
  destruct (startsWith p basePath) eqn:E; [|reflexivity].
  destruct Hno. apply startsWith_inv in E as [rest ->]. by exists rest.
Qed.

(** What [setup] does, on any server object: it never throws. *)
Lemma setup_returns (config : HttpConfig) (this : HttpServer) :
  ∃ srv,
    setup config this =
      (Normal {| setup_options := getServerOptions config;
                 setup_config := config; setup_server := Some srv |},
       set_server (Some srv) this)
    ∧ settings srv = getServerOptions config
    ∧ listening srv = false
    ∧ table srv = []
    ∧ auth_schemes srv = ∅
    ∧ auth_default srv = None
    ∧ ext_onRequest srv =
        match basePath config with
        | Some bp => if rewriteBasePath config then [basePathRewriteHook bp] else []
        | None => []
        end.
Proof.
  unfold setup, setupBasePathRewrite, registerOnPreAuth.
  destruct (basePath config) as [bp|]; [destruct (rewriteBasePath config)|];
    unfold_method; cbn; eexists; (split; [reflexivity|]); by repeat split.
Qed.

(** C5: with the base path [/app] and [rewriteBasePath] on, [setup] installs
    one PreAuth hook; it forwards a request for [/app/foo] to [/foo] (the
    forward flag set, so no redirect reaches the client) and rejects a
    request for [/other] with status 404. *)
Theorem setup_basePath_rewrite_app (h : string) (p : nat) (this : HttpServer)
    (im : IncomingMessage) :
  let config :=
    {| basePath := Some "/app"; rewriteBasePath := true; host := h; port := p |} in
  ∃ hook srv,
    server (setup config this).2 = Some srv
    ∧ ext_onRequest srv = [hook]
    ∧ hook (requestFor im "/app/foo") = redirected "/foo" true
    ∧ hook (requestFor im "/other") = rejected "not found" 404.
Proof.
  intros config.
  destruct (setup_returns config this) as (srv & -> & _ & _ & _ & _ & _ & Hext).
  exists (basePathRewriteHook "/app"), srv. by repeat split.
Qed.

(** C9: the hook installed for a base path with [rewriteBasePath] on takes
    the base path as a plain string prefix of the path name.  Whenever the
    path name starts with the base path string the request is forwarded with
    that prefix cut off, also when the prefix ends inside a path segment
    ([/application] under the base path [/app] is forwarded to [lication]);
    404 is the answer exactly when the path name does not start with the base
    path string. *)
Theorem basePathRewriteHook_string_prefix (config : HttpConfig) (bp : string)
    (this : HttpServer) (request : KibanaRequest) :
  let url := parseUrl (url_href request) in
  (basePath config = Some bp → rewriteBasePath config = true →
   ∃ srv, server (setup config this).2 = Some srv
          ∧ ext_onRequest srv = [basePathRewriteHook bp])
  ∧ (∀ rest, pathname url = Some (bp +:+ rest) →
       basePathRewriteHook bp request =
         redirected (or_else rest "/" +:+ query url +:+ hash url) true)
  ∧ ((∃ e, basePathRewriteHook bp request = rejected e 404)
     ↔ ¬ ∃ rest, pathname url = Some (bp +:+ rest))
  ∧ (∀ im, basePathRewriteHook "/app" (requestFor im "/application")
           = redirected "lication" true).
Proof.
  intros url. split; [|split; [|split]].
  - intros Hbp Hrw.
    destruct (setup_returns config this) as (srv & -> & _ & _ & _ & _ & _ & Hext).
    rewrite Hbp, Hrw in Hext. by exists srv.
  - intros rest. apply basePathRewriteHook_forward.
  - split.
    + intros [e He] [rest Hrest].
      by rewrite (basePathRewriteHook_forward _ _ _ Hrest) in He.
    + intros Hno. exists "not found". by apply basePathRewriteHook_reject.
  - reflexivity.
Qed.

Lemma basePathRewriteHook_string_prefix_witness :
  basePathRewriteHook "/app" (requestFor 1%positive "/app/foo?x=1")
    = redirected "/foo?x=1" true
  ∧ ∃ srv,
      server (setup {| basePath := Some "/app"; rewriteBasePath := true;
                       host := "localhost"; port := 80 |} newHttpServer).2
        = Some srv
      ∧ ext_onRequest srv = [basePathRewriteHook "/app"].
Proof.
  split.
  - destruct (basePathRewriteHook_string_prefix
                {| basePath := Some "/app"; rewriteBasePath := true;
                   host := "localhost"; port := 80 |}
                "/app" newHttpServer (requestFor 1%positive "/app/foo?x=1"))
      as (_ & H & _).
    exact (H "/foo" eq_refl).
  - destruct (basePathRewriteHook_string_prefix
                {| basePath := Some "/app"; rewriteBasePath := true;
                   host := "localhost"; port := 80 |}
                "/app" newHttpServer (requestFor 1%positive "/app/foo?x=1"))
      as (H & _).
    exact (H eq_refl eq_refl).
Defined.

End BasePathRewrite.

(** ** Base path overrides *)

Section BasePathRegistry.

Lemma setBasePathFor_fresh (this : HttpServer) (request : AnyRequest) (bp : string) :
  basePathCache this !! incomingMessageOf request = None →
  setBasePathFor request bp this =
    (Normal (),
     set_basePathCache (<[incomingMessageOf request := bp]> (basePathCache this)) this).
Proof.
  intros Hnone. unfold setBasePathFor. unfold_method.
  rewrite bool_decide_eq_false_2; [done|]. rewrite Hnone. by intros [? ?].
Qed.

(** C6: once a request identity has a base path override, [setBasePathFor]
    throws for it whatever the new value is, and the server object, the
    existing override with it, stays as it was.  So of two calls for one
    identity only the first one sets the override. *)
Theorem setBasePathFor_once (this : HttpServer) (request : AnyRequest)
    (basePath : string) :
  (is_Some (basePathCache this !! incomingMessageOf request) →
   setBasePathFor request basePath this =
     (Throw (Error "Request basePath was previously set. Setting multiple times is not supported."),
      this))
  ∧ (∀ first request',
       incomingMessageOf request' = incomingMessageOf request →
       basePathCache this !! incomingMessageOf request = None →
       let this1 := (setBasePathFor request first this).2 in
       basePathCache this1 !! incomingMessageOf request = Some first
       ∧ setBasePathFor request' basePath this1 =
           (Throw (Error "Request basePath was previously set. Setting multiple times is not supported."),
            this1)).
Proof.
  assert (∀ st rq, is_Some (basePathCache st !! incomingMessageOf rq) →
    setBasePathFor rq basePath st =
      (Throw (Error "Request basePath was previously set. Setting multiple times is not supported."),
       st)) as Hset.
  { intros st rq Hsome. unfold setBasePathFor. unfold_method.
    by rewrite bool_decide_eq_true_2. }
  split; [apply Hset|].
  intros first request' Hsame Hnone this1. subst this1.
  rewrite (setBasePathFor_fresh _ _ _ Hnone). cbn.
  rewrite lookup_insert_eq. split; [done|].
  apply Hset. cbn. rewrite Hsame, lookup_insert_eq. by eexists.
Qed.

Lemma setBasePathFor_once_witness :
  let request := OfKibana (requestFor 7%positive "/s/marketing/app") in
  let this1 := (setBasePathFor request "/s/marketing" newHttpServer).2 in
  setBasePathFor request "/s/sales" this1 =
    (Throw (Error "Request basePath was previously set. Setting multiple times is not supported."),
     this1)
  ∧ basePathCache this1 !! 7%positive = Some "/s/marketing".
Proof.
  intros request this1.
  destruct (setBasePathFor_once newHttpServer request "/s/sales") as [_ H].
  destruct (H "/s/marketing" request eq_refl eq_refl) as [H1 H2].
  split; [exact H2 | exact H1].
Defined.

End BasePathRegistry.

(** ** Setting up twice *)

Section Setup.

(** What [setup] leaves as [this.server]: a fresh listener for the
    configuration, with the rewrite hook on it if the configuration asks for
    one. *)
Lemma setup_server_fresh (config : HttpConfig) (this : HttpServer) :
  server (setup config this).2 =
    Some match basePath config with
         | Some bp =>
             if rewriteBasePath config
             then Server_ext_onRequest (basePathRewriteHook bp)
                    (createServer (getServerOptions config))
             else createServer (getServerOptions config)
         | None => createServer (getServerOptions config)
         end.
Proof.
  unfold setup, setupBasePathRewrite, registerOnPreAuth.
  destruct (basePath config) as [bp|]; [destruct (rewriteBasePath config)|];
    unfold_method; reflexivity.
Qed.

(** C4, as the code has it: [setup] has no guard against a second call.
    Called on a server object that was already set up, it does not throw: it
    returns a capability object for the new configuration and silently
    reconfigures the server, replacing [this.server] by a freshly created
    listener for the new configuration.  That listener is not listening and
    has no routes, no authentication settings and no hooks but the base path
    rewrite hook, which is on it exactly when the new configuration has a
    base path and [rewriteBasePath] set. *)
Theorem setup_again_reconfigures (config1 config2 : HttpConfig) (this : HttpServer) :
  let this1 := (setup config1 this).2 in
  ∃ r srv,
    is_Some (server this1)
    ∧ setup config2 this1 = (Normal r, set_server (Some srv) this1)
    ∧ setup_server r = Some srv
    ∧ setup_options r = getServerOptions config2
    ∧ setup_config r = config2
    ∧ srv = match basePath config2 with
            | Some bp =>
                if rewriteBasePath config2
                then Server_ext_onRequest (basePathRewriteHook bp)
                       (createServer (getServerOptions config2))
                else createServer (getServerOptions config2)
            | None => createServer (getServerOptions config2)
            end
    ∧ ext_onRequest srv =
        match basePath config2 with
        | Some bp => if rewriteBasePath config2 then [basePathRewriteHook bp] else []
        | None => []
        end
    ∧ ext_onPostAuth srv = []
    ∧ ext_onPreResponse srv = []
    ∧ settings srv = getServerOptions config2
    ∧ listening srv = false
    ∧ table srv = []
    ∧ auth_schemes srv = ∅
    ∧ auth_strategies srv = ∅
    ∧ auth_default srv = None.
Proof.
  intros this1. subst this1.
  destruct (setup_returns config1 this) as (srv1 & -> & _). cbn [snd].
  pose proof (setup_server_fresh config2 (set_server (Some srv1) this)) as Hfresh.
  destruct (setup_returns config2 (set_server (Some srv1) this))
    as (srv2 & Hs & _).
  rewrite Hs in Hfresh. cbn in Hfresh. injection Hfresh as Hsrv2.
  eexists _, srv2. split; [by eexists|]. split; [exact Hs|].
  do 3 (split; [done|]). split; [exact Hsrv2|].
  rewrite Hsrv2.
  destruct (basePath config2) as [bp|]; [destruct (rewriteBasePath config2)|];
    by repeat split.
Qed.

(** C4, as stated, fails: a second [setup] on the same server object does
    not throw. *)
Lemma setup_twice_does_not_throw :
  let config :=
    {| basePath := None; rewriteBasePath := false; host := "localhost"; port := 80 |} in
  is_throw (setup config (setup config newHttpServer).2).1 = false.
Proof. reflexivity. Qed.

End Setup.

(** ** Registering routers and binding routes *)

Section Routes.

Lemma Set_has_add (router : Router) (routers : list Router) :
  Set_has router (Set_add router routers) = true.
Proof.
  unfold Set_add. destruct (Set_has router routers) eqn:E; [done|].
  unfold Set_has. rewrite existsb_app. cbn.
  by rewrite Pos.eqb_refl, orb_true_r.
Qed.

Lemma elem_of_Set_add (r router : Router) (routers : list Router) :
  r ∈ routers → r ∈ Set_add router routers.
Proof.
  unfold Set_add. destruct (Set_has router routers); [done|].
  intros. apply elem_of_app. by left.
Qed.

Lemma foldl_Server_route (f : RouterRoute → ServerRoute) (l : list RouterRoute)
    (srv : Server) :
  let srv' := foldl (λ acc route, Server_route (f route) acc) srv l in
  table srv' = table srv ++ map f l
  ∧ listening srv' = listening srv
  ∧ auth_schemes srv' = auth_schemes srv
  ∧ ext_onRequest srv' = ext_onRequest srv.
Proof.
  revert srv. induction l as [|route l IH]; intros srv; cbn.
  - by rewrite app_nil_r.
  - destruct (IH (Server_route (f route) srv)) as (-> & -> & -> & ->).
    cbn. by rewrite <- app_assoc.
Qed.

Lemma foldl_routers (a : bool) (routers : list Router) (srv : Server) :
  let srv' :=
    foldl (λ acc router,
             foldl (λ acc' route, Server_route (bindRoute a router route) acc')
                   acc (routes router))
          srv routers in
  table srv' =
    table srv ++ flat_map (λ router, map (bindRoute a router) (routes router)) routers
  ∧ listening srv' = listening srv
  ∧ auth_schemes srv' = auth_schemes srv
  ∧ ext_onRequest srv' = ext_onRequest srv.
Proof.
  revert srv. induction routers as [|router routers IH]; intros srv; cbn.
  - by rewrite app_nil_r.
  - destruct (foldl_Server_route (bindRoute a router) (routes router) srv)
      as (Ht & Hl & Hs & He).
    destruct (IH (foldl (λ acc' route, Server_route (bindRoute a router route) acc')
                        srv (routes router))) as (-> & -> & -> & ->).
    rewrite Ht, Hl, Hs, He. by rewrite <- app_assoc.
Qed.

(** How [start] ends on a server object that has been set up. *)
Lemma start_bound (config : HttpConfig) (listen : option JsError)
    (this : HttpServer) (srv : Server) :
  server this = Some srv →
  ∃ bound,
    table bound =
      table srv ++ flat_map (λ router, map (bindRoute (authRegistered this) router)
                                           (routes router))
                            (registeredRouters this)
    ∧ listening bound = listening srv
    ∧ auth_schemes bound = auth_schemes srv
    ∧ start config listen this =
        match listen with
        | Some e => (Throw e, set_server (Some bound) this)
        | None => (Normal (), set_server (Some (Server_set_listening true bound)) this)
        end.
Proof.
  intros Hsrv. unfold start. unfold_method. rewrite Hsrv. cbn.
  destruct (foldl_routers (authRegistered this) (registeredRouters this) srv)
    as (Ht & Hl & Hs & _).
  eexists. split; [exact Ht|]. split; [exact Hl|]. split; [exact Hs|].
  by destruct listen.
Qed.

Lemma start_unset (config : HttpConfig) (listen : option JsError) (this : HttpServer) :
  server this = None →
  start config listen this = (Throw (Error "Http server is not setup up yet"), this).
Proof. intros H. unfold start. unfold_method. by rewrite H. Qed.

(** C7: while the server is listening [registerRouter] throws and the server
    object, its set of routers with it, stays as it was; this is so once
    [start] has brought the listener up.  While the server is not listening
    the call returns and the router is in the set, next to the routers that
    were in it. *)
Theorem registerRouter_listening (this : HttpServer) (router : Router) :
  ((isListening this).1 = Normal true →
   registerRouter router this =
     (Throw (Error "Routers can be registered only when HTTP server is stopped."),
      this))
  ∧ (∀ config, is_Some (server this) →
       let this1 := (start config None this).2 in
       (start config None this).1 = Normal ()
       ∧ registerRouter router this1 =
           (Throw (Error "Routers can be registered only when HTTP server is stopped."),
            this1))
  ∧ ((isListening this).1 = Normal false →
     ∃ this',
       registerRouter router this = (Normal (), this')
       ∧ Set_has router (registeredRouters this') = true
       ∧ (∀ r, r ∈ registeredRouters this → r ∈ registeredRouters this')
       ∧ server this' = server this
       ∧ authRegistered this' = authRegistered this).
Proof.
  assert (∀ st, (isListening st).1 = Normal true →
    registerRouter router st =
      (Throw (Error "Routers can be registered only when HTTP server is stopped."),
       st)) as Hlocked.
  { intros st H. unfold registerRouter. unfold_method.
    unfold isListening, gets in *. cbn in H. injection H as ->. done. }
  split; [apply Hlocked|]. split.
  - intros config [srv Hsrv] this1. subst this1.
    destruct (start_bound config None this srv Hsrv) as (bound & _ & _ & _ & ->).
    split; [done|]. by apply Hlocked.
  - intros H. unfold registerRouter. unfold_method.
    unfold isListening, gets in *. cbn in H. injection H as ->.
    eexists. split; [reflexivity|]. cbn.
    split; [apply Set_has_add|]. split; [|done].
    intros r. apply elem_of_Set_add.
Qed.

Lemma registerRouter_listening_witness :
  let config :=
    {| basePath := None; rewriteBasePath := false; host := "localhost"; port := 80 |} in
  let router := {| router_id := 1; path := "/api"; routes := [] |} in
  let configured := (setup config newHttpServer).2 in
  let started := (start config None configured).2 in
  registerRouter router started =
    (Throw (Error "Routers can be registered only when HTTP server is stopped."),
     started)
  ∧ ∃ this', registerRouter router configured = (Normal (), this')
             ∧ Set_has router (registeredRouters this') = true.
Proof.
  intros config router configured started. split.
  - destruct (registerRouter_listening started router) as (H & _).
    apply H. reflexivity.
  - destruct (registerRouter_listening configured router) as (_ & _ & H).
    destruct (H eq_refl) as (this' & H1 & H2 & _). by exists this'.
Defined.

(** C8: [start] adds to the route table one bound route for every route of
    every registered router, in order, under the joined path.  A bound route
    is left to the server's authentication (its [auth] option unset) exactly
    when the route requires authentication and the registered-auth flag is
    set; a route that does not require authentication, or requires it while
    the flag is not set, is bound with authentication switched off. *)
Theorem start_auth_enforcement (config : HttpConfig) (listen : option JsError)
    (this : HttpServer) (srv : Server) :
  server this = Some srv →
  ∃ srv',
    server (start config listen this).2 = Some srv'
    ∧ table srv' =
        table srv ++ flat_map (λ router, map (bindRoute (authRegistered this) router)
                                             (routes router))
                              (registeredRouters this)
    ∧ (listen = None →
       (start config listen this).1 = Normal () ∧ listening srv' = true)
    ∧ ∀ router route,
        let bound := bindRoute (authRegistered this) router route in
        sr_method bound = route_method route
        ∧ sr_handler bound = route_handler route
        ∧ sr_path bound = getRouteFullPath (path router) (route_path route)
        ∧ (sr_auth bound = AuthDefault
           ↔ authRequired route = true ∧ authRegistered this = true)
        ∧ (sr_auth bound = AuthOff
           ↔ authRequired route = false ∨ authRegistered this = false).
Proof.
  intros Hsrv.
  destruct (start_bound config listen this srv Hsrv) as (bound & Ht & _ & _ & ->).
  assert (∀ router route,
    let b := bindRoute (authRegistered this) router route in
    sr_method b = route_method route
    ∧ sr_handler b = route_handler route
    ∧ sr_path b = getRouteFullPath (path router) (route_path route)
    ∧ (sr_auth b = AuthDefault
       ↔ authRequired route = true ∧ authRegistered this = true)
    ∧ (sr_auth b = AuthOff
       ↔ authRequired route = false ∨ authRegistered this = false)) as Hroutes.
  { intros router route. cbn.
    destruct (authRegistered this), (authRequired route); cbn;
      repeat split; intros; try done; intuition congruence. }
  destruct listen as [e|].
  - exists bound. cbn.
    split; [done|]. split; [done|]. split; [discriminate|]. exact Hroutes.
  - exists (Server_set_listening true bound). cbn.
    split; [done|]. split; [done|]. split; [done|]. exact Hroutes.
Qed.

End Routes.

(** ** Histories: the registered-auth flag *)

Section Histories.

Ltac unfold_calls :=
  unfold exec, on_this, setup, setupBasePathRewrite, start, stop,
    registerRouter, isListening, registerOnPreAuth, registerOnPostAuth,
    registerOnPreResponse, registerAuth_enter, registerAuth_resume,
    setBasePathFor, interceptAuth, onAuthSuccess in *;
  unfold_method.

(** Whether a call is a [registerAuth] call that passes its checks. *)
Lemma exec_authRegistered (c : Call) (w : World) :
  authRegistered (this (exec c w).2) =
    authRegistered (this w)
    || match c with
       | Call_registerAuth _ _ _ => negb (is_throw (exec c w).1)
       | _ => false
       end.
Proof.
  destruct c; unfold_calls; cbn;
    repeat (case_match; cbn in *; simplify_eq);
    try done; by rewrite ?orb_false_r, ?orb_true_r.
Qed.

Lemma run_cons (c : Call) (calls : list Call) (w : World) :
  run (c :: calls) w = run calls (exec c w).2.
Proof. reflexivity. Qed.

Lemma run_authRegistered (calls : list Call) (w : World) :
  authRegistered (this (run calls w)) =
    authRegistered (this w) || auth_ever_registered calls w.
Proof.
  revert w. induction calls as [|c calls IH]; intros w.
  - cbn. by rewrite orb_false_r.
  - rewrite run_cons, IH, exec_authRegistered. cbn [auth_ever_registered].
    by rewrite orb_assoc.
Qed.

(** The flag is never reset. *)
Lemma run_authRegistered_mono (calls : list Call) (w : World) :
  authRegistered (this w) = true → authRegistered (this (run calls w)) = true.
Proof. intros H. by rewrite run_authRegistered, H. Qed.

(** With the flag set, [registerAuth] throws in front of its [await]. *)
Lemma registerAuth_enter_registered (st : HttpServer) :
  authRegistered st = true →
  ∃ e, registerAuth_enter st = (Throw e, st)
       ∧ (is_Some (server st) → e = Error "Auth interceptor was already registered").
Proof.
  intros H. unfold registerAuth_enter. unfold_method. cbn.
  destruct (server st); cbn; rewrite ?H; eexists; (split; [reflexivity|]); [done|].
  by intros [? ?].
Qed.

Lemma registerAuth_registered (st : HttpServer) (fn : AuthenticationHandler)
    (cookieOptions : SessionStorageCookieOptions) (basePath : option string)
    (factory : CookieSessionStorageFactory) :
  authRegistered st = true →
  ∃ e, registerAuth fn cookieOptions basePath factory st = (Throw e, st)
       ∧ (is_Some (server st) → e = Error "Auth interceptor was already registered").
Proof.
  intros H. destruct (registerAuth_enter_registered st H) as (e & He & Hmsg).
  exists e. split; [|done]. unfold registerAuth. unfold_method. by rewrite He.
Qed.

(** A [registerAuth] call that passes its checks sets the flag and touches
    nothing else. *)
Lemma registerAuth_enter_passes (st st' : HttpServer) (srv : Server) :
  registerAuth_enter st = (Normal srv, st') →
  server st = Some srv ∧ authRegistered st = false
  ∧ st' = set_authRegistered true st.
Proof.
  unfold registerAuth_enter. unfold_method. cbn.
  destruct (server st) as [srv0|]; [|done]. cbn.
  destruct (authRegistered st); [done|]. cbn. by intros [= -> <-].
Qed.

Lemma registerAuth_enter_throws (st st' : HttpServer) (e : JsError) :
  registerAuth_enter st = (Throw e, st') → st' = st.
Proof.
  unfold registerAuth_enter. unfold_method. cbn.
  destruct (server st); cbn; [destruct (authRegistered st); cbn|]; congruence.
Qed.

Lemma exec_registerAuth_passes (w : World) (fn : AuthenticationHandler)
    (cookieOptions : SessionStorageCookieOptions) (basePath : option string) :
  (exec (Call_registerAuth fn cookieOptions basePath) w).1 = Normal () →
  is_Some (server (this w)) ∧ authRegistered (this w) = false
  ∧ (exec (Call_registerAuth fn cookieOptions basePath) w).2 =
      {| this := set_authRegistered true (this w);
         suspended := suspended w ++ [fn]; detached := detached w |}.
Proof.
  unfold exec, on_this. unfold_method.
  destruct (registerAuth_enter (this w)) as [[srv|e] st'] eqn:E; [|done].
  apply registerAuth_enter_passes in E as (Hsrv & Hflag & ->).
  intros _. cbn. split; [by eexists|done].
Qed.

Lemma auth_untouched_login_scheme (w : World) (replaced : option nat) :
  auth_untouched w → login_scheme w replaced = None.
Proof.
  intros (_ & _ & Hcur & Hold). unfold login_scheme.
  destruct replaced as [k|]; cbn.
  - destruct (detached w !! k) as [srv|] eqn:E; [|done]. cbn.
    apply Hold. by eapply list_elem_of_lookup_2.
  - destruct (server (this w)) as [srv|] eqn:E; [|done]. cbn. by apply Hcur.
Qed.

(** As long as the flag is unset, nothing of authentication exists. *)
Lemma exec_auth_untouched (c : Call) (w : World) :
  (authRegistered (this w) = false → auth_untouched w) →
  authRegistered (this (exec c w).2) = false →
  auth_untouched (exec c w).2.
Proof.
  intros Hinv Hafter.
  pose proof Hafter as Hbefore. rewrite exec_authRegistered in Hbefore.
  apply orb_false_iff in Hbefore as [Hflag Hpass].
  specialize (Hinv Hflag).
  pose proof Hinv as (Hstate & Hsusp & Hcur & Hold).
  unfold auth_untouched.
  destruct c as [config|config listen|halt|router|fn|fn|fn|fn co bp|storage|request bp
                |replaced req existing].
  - (* setup *)
    unfold exec. unfold_method. cbn. unfold on_this.
    destruct (setup_returns config (this w)) as (srv & -> & _ & _ & _ & Hs & _).
    cbn. repeat split; [done|done|..].
    + intros srv' [= <-]. by rewrite Hs.
    + intros srv' [Hin|Hin]%elem_of_app; [by apply Hold|].
      destruct (server (this w)) as [old|] eqn:E; cbn in Hin.
      * apply list_elem_of_singleton in Hin as ->. by apply Hcur.
      * by apply elem_of_nil in Hin.
  - (* start *)
    unfold exec, on_this.
    destruct (server (this w)) as [srv|] eqn:E.
    + destruct (start_bound config listen (this w) srv E) as (bound & _ & _ & Hs & ->).
      destruct listen; cbn; (repeat split; [done|done|..|done]);
        intros srv' [= <-]; cbn; rewrite Hs; by apply Hcur.
    + rewrite (start_unset config listen (this w) E). cbn.
      repeat split; try done. intros srv'. by rewrite E.
  - (* stop *)
    unfold_calls. cbn.
    destruct (server (this w)) eqn:E; [destruct halt|]; cbn;
      (repeat split; [done|done|..|done]); intros srv'; rewrite ?E; try done;
      intros [= <-]; by apply Hcur.
  - (* registerRouter *)
    unfold_calls. cbn.
    destruct (server (this w)) as [srv|] eqn:E; [destruct (listening srv)|]; cbn;
      (repeat split; [done|done|..|done]); intros srv'; rewrite ?E; try done;
      intros [= <-]; cbn; by apply Hcur.
  - (* registerOnPreAuth *)
    unfold_calls. cbn.
    destruct (server (this w)) as [srv|] eqn:E; cbn;
      (repeat split; [done|done|..|done]); intros srv'; rewrite ?E; try done;
      intros [= <-]; cbn; by apply Hcur.
  - (* registerOnPostAuth *)
    unfold_calls. cbn.
    destruct (server (this w)) as [srv|] eqn:E; cbn;
      (repeat split; [done|done|..|done]); intros srv'; rewrite ?E; try done;
      intros [= <-]; cbn; by apply Hcur.
  - (* registerOnPreResponse *)
    unfold_calls. cbn.
    destruct (server (this w)) as [srv|] eqn:E; cbn;
      (repeat split; [done|done|..|done]); intros srv'; rewrite ?E; try done;
      intros [= <-]; cbn; by apply Hcur.
  - (* registerAuth: with the flag still unset the call has thrown *)
    unfold exec, on_this in *. unfold_method.
    destruct (registerAuth_enter (this w)) as [[srv|e] st'] eqn:E;
      [cbn in Hpass; done|].
    apply registerAuth_enter_throws in E as ->. cbn.
    by repeat split.
  - (* the settling of registerAuth: no call is suspended *)
    unfold exec. unfold_method. cbn. rewrite Hsusp. cbn. by destruct w.
  - (* setBasePathFor *)
    unfold_calls. cbn.
    destruct (bool_decide _); cbn; repeat split; cbn; try done.
  - (* an incoming request: there is no scheme to run *)
    unfold exec. unfold_method. cbn.
    rewrite (auth_untouched_login_scheme w replaced Hinv). cbn. by destruct w.
Qed.

Lemma run_auth_untouched (calls : list Call) (w : World) :
  (authRegistered (this w) = false → auth_untouched w) →
  authRegistered (this (run calls w)) = false →
  auth_untouched (run calls w).
Proof.
  revert w. induction calls as [|c calls IH]; intros w Hinv Hflag.
  - by apply Hinv.
  - rewrite run_cons in *. apply IH; [|done].
    by apply exec_auth_untouched.
Qed.

Lemma newWorld_auth_untouched : auth_untouched newWorld.
Proof.
  repeat split; try done. intros srv Hin. by apply elem_of_nil in Hin.
Qed.

End Histories.

(** ** Authentication status and single registration *)

Section Authentication.

(** The precedence of [getAuthData], on any server object. *)
Lemma getAuthData_precedence (st : HttpServer) (request : AnyRequest) :
  ∃ data,
    getAuthData request st = (Normal data, st)
    ∧ (∀ v, authState st !! incomingMessageOf request = Some v →
            status data = AuthStatus.authenticated ∧ state data = v)
    ∧ (authState st !! incomingMessageOf request = None →
       authRegistered st = true → status data = AuthStatus.unauthenticated)
    ∧ (authState st !! incomingMessageOf request = None →
       authRegistered st = false → status data = AuthStatus.unknown).
Proof.
  unfold getAuthData, gets. eexists. split; [reflexivity|]. cbn.
  destruct (authState st !! incomingMessageOf request) as [v|] eqn:E.
  - rewrite bool_decide_eq_true_2 by (by eexists).
    split; [by intros ? [= ->]|]. by split.
  - rewrite bool_decide_eq_false_2 by (by intros [? ?]).
    split; [done|]. by split; intros _ ->.
Qed.

(** C1: after any history of a server instance, [getAuthData] returns one
    status for a request, by this precedence: [authenticated] if the request
    identity has an auth record; else [unauthenticated] if the
    registered-auth flag is set; else [unknown].  The flag is set exactly
    when some [registerAuth] call of the history has passed its checks, and
    [unknown] is reported exactly when none has. *)
Theorem getAuthData_status (calls : list Call) (request : AnyRequest) :
  let st := this (run calls newWorld) in
  ∃ data,
    getAuthData request st = (Normal data, st)
    ∧ (∀ v, authState st !! incomingMessageOf request = Some v →
            status data = AuthStatus.authenticated ∧ state data = v)
    ∧ (authState st !! incomingMessageOf request = None →
       authRegistered st = true → status data = AuthStatus.unauthenticated)
    ∧ (authState st !! incomingMessageOf request = None →
       authRegistered st = false → status data = AuthStatus.unknown)
    ∧ authRegistered st = auth_ever_registered calls newWorld
    ∧ (status data = AuthStatus.unknown
       ↔ auth_ever_registered calls newWorld = false).
Proof.
  intros st.
  destruct (getAuthData_precedence st request) as (data & Hget & Hauth & Hunauth & Hunk).
  exists data. do 4 (split; [done|]).
  assert (authRegistered st = auth_ever_registered calls newWorld) as Hflag.
  { subst st. by rewrite run_authRegistered. }
  split; [done|]. rewrite <- Hflag. split.
  - intros Hstatus.
    destruct (authState st !! incomingMessageOf request) as [v|] eqn:E.
    + destruct (Hauth v eq_refl) as [Hs _]. congruence.
    + destruct (authRegistered st) eqn:Er; [|done].
      specialize (Hunauth eq_refl eq_refl). congruence.
  - intros Hno. apply Hunk; [|done].
    destruct (run_auth_untouched calls newWorld) as (Hempty & _);
      [intros _; apply newWorld_auth_untouched|done|].
    fold st in Hempty. by rewrite Hempty.
Qed.

(** C2: [registerAuth] throws when there is no listener, and once one
    [registerAuth] call has passed its checks every later [registerAuth]
    call on the instance throws, whatever its arguments, whatever the session
    storage factory would answer and whatever has happened in between; the
    server object is left as it was. *)
Theorem registerAuth_once (w : World)
    (fn fn' : AuthenticationHandler)
    (cookieOptions cookieOptions' : SessionStorageCookieOptions)
    (basePath basePath' : option string)
    (factory : CookieSessionStorageFactory) (calls : list Call) :
  (server (this w) = None →
   registerAuth fn cookieOptions basePath factory (this w) =
     (Throw (Error "Server is not created yet"), this w))
  ∧ ((exec (Call_registerAuth fn cookieOptions basePath) w).1 = Normal () →
     let st := this (run calls (exec (Call_registerAuth fn cookieOptions basePath) w).2) in
     ∃ e, registerAuth fn' cookieOptions' basePath' factory st = (Throw e, st)
          ∧ (is_Some (server st) →
             e = Error "Auth interceptor was already registered")).
Proof.
  split.
  - intros Hnone. unfold registerAuth, registerAuth_enter. unfold_method.
    by rewrite Hnone.
  - intros Hpass st. apply registerAuth_registered. subst st.
    apply run_authRegistered_mono.
    by destruct (exec_registerAuth_passes _ _ _ _ Hpass) as (_ & _ & ->).
Qed.

(** C10: a [registerAuth] call that passes its checks sets the
    registered-auth flag in front of its [await], while no scheme is
    installed yet.  If the awaited session storage factory then fails, the
    call rejects with that error and the flag stays set: the server object
    is as it was at the [await].  From then on, whatever happens, every
    [registerAuth] call on the instance throws. *)
Theorem registerAuth_flag_kept (w : World)
    (fn fn' : AuthenticationHandler)
    (cookieOptions cookieOptions' : SessionStorageCookieOptions)
    (basePath basePath' : option string)
    (factory factory' : CookieSessionStorageFactory)
    (e : JsError) (calls : list Call) :
  (exec (Call_registerAuth fn cookieOptions basePath) w).1 = Normal () →
  let w1 := (exec (Call_registerAuth fn cookieOptions basePath) w).2 in
  let w2 := (exec (Settle_registerAuth (Throw e)) w1).2 in
  authRegistered (this w) = false
  ∧ this w1 = set_authRegistered true (this w)
  ∧ (suspended w = [] →
     (exec (Settle_registerAuth (Throw e)) w1).1 = Throw e ∧ this w2 = this w1)
  ∧ (∀ srv, server (this w) = Some srv →
       factory srv cookieOptions basePath = Throw e →
       registerAuth fn cookieOptions basePath factory (this w) =
         (Throw e, set_authRegistered true (this w)))
  ∧ authRegistered (this w2) = true
  ∧ is_throw (registerAuth fn' cookieOptions' basePath' factory'
                (this (run calls w2))).1 = true.
Proof.
  intros Hpass w1 w2.
  destruct (exec_registerAuth_passes _ _ _ _ Hpass) as ([srv Hsrv] & Hflag & Hw1).
  assert (authRegistered (this w1) = true) as Hset by (subst w1; by rewrite Hw1).
  assert (authRegistered (this w2) = true) as Hkept.
  { subst w2. rewrite exec_authRegistered. by rewrite Hset. }
  split; [done|]. split; [subst w1; by rewrite Hw1|]. split; [|split; [|split; [done|]]].
  - intros Hnone. subst w2 w1. rewrite Hw1.
    unfold exec, on_this. unfold_method. cbn. rewrite Hnone. by cbn.
  - intros srv' Hsrv' Hfail. unfold registerAuth, registerAuth_enter. unfold_method.
    rewrite Hsrv', Hflag. cbn. by rewrite Hfail.
  - destruct (registerAuth_registered (this (run calls w2)) fn' cookieOptions'
                basePath' factory') as (e' & -> & _); [|done].
    by apply run_authRegistered_mono.
Qed.

End Authentication.

(** ** The sample deployment *)

Section SampleRuns.
Import Sample.

Lemma getAuthData_status_witness :
  let calls :=
    [Call_setup config; Call_registerAuth letIn cookieOptions (Some "/app");
     Settle_registerAuth (Normal storage); Incoming None request JsUndefined] in
  let st := this (run calls newWorld) in
  (∃ data, getAuthData (OfHapi request) st = (Normal data, st)
           ∧ status data = AuthStatus.authenticated
           ∧ state data = JsData "alice")
  ∧ (∃ data, getAuthData (OfKibana (requestFor 6%positive "/")) st = (Normal data, st)
             ∧ status data = AuthStatus.unauthenticated)
  ∧ (∃ data, getAuthData (OfHapi request) (this configured)
               = (Normal data, this configured)
             ∧ status data = AuthStatus.unknown).
Proof.
  intros calls st. split; [|split].
  - destruct (getAuthData_status calls (OfHapi request))
      as (data & Hget & Hauth & _).
    exists data. split; [exact Hget|]. exact (Hauth (JsData "alice") eq_refl).
  - destruct (getAuthData_status calls (OfKibana (requestFor 6%positive "/")))
      as (data & Hget & _ & Hunauth & _).
    exists data. split; [exact Hget|]. exact (Hunauth eq_refl eq_refl).
  - destruct (getAuthData_status [Call_setup config; Call_registerRouter router]
                (OfHapi request)) as (data & Hget & _ & _ & _ & _ & Hunk).
    exists data. split; [exact Hget|]. apply Hunk. reflexivity.
Defined.

Lemma registerAuth_once_witness :
  let first := Call_registerAuth letIn cookieOptions (Some "/app") in
  let st := this (run [Settle_registerAuth (Normal storage)] (exec first configured).2) in
  registerAuth letIn cookieOptions None failing (this newWorld) =
    (Throw (Error "Server is not created yet"), this newWorld)
  ∧ ∃ e, registerAuth letIn cookieOptions None failing st = (Throw e, st)
         ∧ e = Error "Auth interceptor was already registered".
Proof.
  intros first st. split.
  - destruct (registerAuth_once newWorld letIn letIn cookieOptions cookieOptions
                None None failing []) as [H _].
    exact (H eq_refl).
  - destruct (registerAuth_once configured letIn letIn cookieOptions cookieOptions
                (Some "/app") None failing [Settle_registerAuth (Normal storage)])
      as [_ H].
    destruct (H eq_refl) as (e & He & Hmsg).
    exists e. split; [exact He|]. apply Hmsg. by eexists.
Defined.

Lemma registerAuth_flag_kept_witness :
  let first := Call_registerAuth letIn cookieOptions (Some "/app") in
  let e := Error "cookie plugin failed" in
  let w2 := (exec (Settle_registerAuth (Throw e)) (exec first configured).2).2 in
  registerAuth letIn cookieOptions (Some "/app") failing (this configured) =
    (Throw e, set_authRegistered true (this configured))
  ∧ authRegistered (this w2) = true
  ∧ is_throw (registerAuth letIn cookieOptions (Some "/app") failing
                (this (run [Call_stop None; Call_setup config] w2))).1 = true.
Proof.
  intros first e w2.
  destruct (registerAuth_flag_kept configured letIn letIn cookieOptions cookieOptions
              (Some "/app") (Some "/app") failing failing e
              [Call_stop None; Call_setup config] eq_refl)
    as (_ & _ & _ & Hfail & Hkept & Hlater).
  split; [|split; [exact Hkept | exact Hlater]].
  destruct (server (this configured)) as [srv|] eqn:E; [|discriminate E].
  exact (Hfail srv eq_refl eq_refl).
Defined.

Lemma start_auth_enforcement_witness :
  (∃ srv',
     server (start config None (this secured)).2 = Some srv'
     ∧ map sr_path (table srv') = ["/api/widgets"; "/api/status"]
     ∧ map sr_auth (table srv') = [AuthDefault; AuthOff])
  ∧ (∃ srv',
       server (start config None (this configured)).2 = Some srv'
       ∧ map sr_auth (table srv') = [AuthOff; AuthOff]).
Proof.
  split.
  - destruct (server (this secured)) as [srv|] eqn:E; [|discriminate E].
    destruct (start_auth_enforcement config None (this secured) srv E)
      as (srv' & Hsrv' & Htable & _).
    exists srv'. split; [exact Hsrv'|]. rewrite Htable.
    injection E as <-. split; reflexivity.
  - destruct (server (this configured)) as [srv|] eqn:E; [|discriminate E].
    destruct (start_auth_enforcement config None (this configured) srv E)
      as (srv' & Hsrv' & Htable & _).
    exists srv'. split; [exact Hsrv'|]. rewrite Htable.
    injection E as <-. reflexivity.
Defined.

End SampleRuns.

(** * Further properties of the server object *)

(** ** Base paths per request *)

Section BasePaths.
Import JsString.

Lemma or_else_empty (s : string) : or_else s "" = s.
Proof. by destruct s. Qed.

(** X1: an override set for a request identity is what [getBasePathFor]
    appends to the server's base path for every request of that identity,
    and the base paths of other identities are as before; without an
    override the answer is the server's base path, the empty string if the
    configuration has none. *)
Theorem getBasePathFor_setBasePathFor (config : HttpConfig) (this : HttpServer)
    (request request' : AnyRequest) (bp : string) :
  basePathCache this !! incomingMessageOf request = None →
  let this1 := (setBasePathFor request bp this).2 in
  getBasePathFor config request this = (Normal (default "" (basePath config)), this)
  ∧ (incomingMessageOf request' = incomingMessageOf request →
     getBasePathFor config request' this1 =
       (Normal (default "" (basePath config) +:+ bp), this1))
  ∧ (incomingMessageOf request' ≠ incomingMessageOf request →
     (getBasePathFor config request' this1).1 = (getBasePathFor config request' this).1).
Proof.
  intros Hnone this1. subst this1. rewrite (setBasePathFor_fresh _ _ _ Hnone).
  unfold getBasePathFor, gets. cbn. rewrite !or_else_empty.
  split; [|split].
  - by rewrite Hnone, str_app_nil_r.
  - intros ->. by rewrite lookup_insert_eq.
  - intros Hne. by rewrite lookup_insert_ne.
Qed.

Lemma getBasePathFor_setBasePathFor_witness :
  let request := OfKibana (requestFor 7%positive "/s/marketing/app/home") in
  let same := OfHapi {| raw_req := 7%positive; hapi_href := "/app/home" |} in
  let this1 := (setBasePathFor request "/s/marketing" newHttpServer).2 in
  getBasePathFor Sample.config same this1 = (Normal "/app/s/marketing", this1).
Proof.
  intros request same this1.
  destruct (getBasePathFor_setBasePathFor Sample.config newHttpServer request same
              "/s/marketing" eq_refl) as (_ & H & _).
  exact (H eq_refl).
Defined.

(** X2: a [KibanaRequest] and a hapi [Request] that wrap the same incoming
    message are one request to the server object: reading the base path,
    setting it, and asking for the authentication data give the same
    answers and the same state for both. *)
Theorem same_incoming_message (config : HttpConfig) (this : HttpServer)
    (k : KibanaRequest) (h : HapiRequest) (bp : string) :
  unstable_getIncomingMessage k = raw_req h →
  getBasePathFor config (OfKibana k) this = getBasePathFor config (OfHapi h) this
  ∧ setBasePathFor (OfKibana k) bp this = setBasePathFor (OfHapi h) bp this
  ∧ getAuthData (OfKibana k) this = getAuthData (OfHapi h) this
  ∧ isAuthenticated (OfKibana k) this = isAuthenticated (OfHapi h) this.
Proof.
  intros Hsame.
  unfold getBasePathFor, setBasePathFor, isAuthenticated, getAuthData.
  cbn [incomingMessageOf]. by rewrite Hsame.
Qed.

Lemma same_incoming_message_witness :
  let k := requestFor 7%positive "/s/marketing/app/home" in
  let h := {| raw_req := 7%positive; hapi_href := "/app/home" |} in
  let this1 := (setBasePathFor (OfKibana k) "/s/marketing" newHttpServer).2 in
  getBasePathFor Sample.config (OfKibana k) this1
    = getBasePathFor Sample.config (OfHapi h) this1
  ∧ is_throw (setBasePathFor (OfHapi h) "/s/sales" this1).1 = true.
Proof.
  intros k h this1.
  destruct (same_incoming_message Sample.config this1 k h "/s/sales" eq_refl)
    as (Hget & Hset & _).
  split; [exact Hget|]. by rewrite <- Hset.
Defined.

End BasePaths.

(** ** More on route paths *)

Section RoutePathShape.
Import JsString.

Lemma slice_one_length (s : string) :
  startsWith s "/" = true →
  String.length (slice 1 s) = String.length s - 1.
Proof.
  intros [r ->]%startsWith_inv. rewrite str_app_cons. cbn. lia.
Qed.

(** X10: the joined path starts with the router's path, and its length is
    the sum of the two lengths, less one exactly when the router's path ends
    with a slash and the route's path starts with one.  An empty router path
    or an empty route path leaves the other path as it is. *)
Theorem getRouteFullPath_shape (routerPath routePath : string) :
  startsWith (getRouteFullPath routerPath routePath) routerPath = true
  ∧ String.length (getRouteFullPath routerPath routePath) =
      String.length routerPath + String.length routePath
      - (if endsWith routerPath "/" && startsWith routePath "/" then 1 else 0)
  ∧ getRouteFullPath "" routePath = routePath
  ∧ getRouteFullPath routerPath "" = routerPath.
Proof.
  unfold getRouteFullPath. split; [apply startsWith_app|]. split; [|split].
  - rewrite str_length_app.
    destruct (endsWith routerPath "/") eqn:Ee; cbn [andb].
    + destruct (startsWith routePath "/") eqn:Es.
      * rewrite (slice_one_length _ Es).
        apply startsWith_inv in Es as [r ->]. rewrite str_app_cons. cbn. lia.
      * cbn. lia.
    + cbn. lia.
  - reflexivity.
  - rewrite andb_false_r. cbn. apply str_app_nil_r.
Qed.

End RoutePathShape.

(** ** Stopping, and calls that throw *)

Ltac unfold_exec :=
  unfold exec, on_this, setup, setupBasePathRewrite, start, stop,
    registerRouter, isListening, registerOnPreAuth, registerOnPostAuth,
    registerOnPreResponse, registerAuth_enter, registerAuth_resume,
    setBasePathFor, interceptAuth, onAuthSuccess in *;
  unfold_method.

Section Lifecycle.

(** X3: [stop] on a server object without a listener is a no-op and never
    throws, however [server.stop()] would end.  With a listener it depends on
    [server.stop()]: if that fails, [stop] throws the same error and the
    server object, its listener included, is as it was; if it succeeds,
    [stop] returns and the object has no listener: it is not listening,
    [start] and the three hook registrations throw as they do before
    [setup], and routers can be registered again, while the routers, the
    registered-auth flag and the two per-request maps survive.  So stopping
    a stopped server changes nothing. *)
Theorem stop_releases_listener (this : HttpServer) (e : JsError) :
  let st := (stop None this).2 in
  (server this = None → ∀ halt, stop halt this = (Normal (), this))
  ∧ (is_Some (server this) → stop (Some e) this = (Throw e, this))
  ∧ (stop None this).1 = Normal ()
  ∧ server st = None
  ∧ (isListening st).1 = Normal false
  ∧ registeredRouters st = registeredRouters this
  ∧ authRegistered st = authRegistered this
  ∧ basePathCache st = basePathCache this
  ∧ authState st = authState this
  ∧ (∀ halt, stop halt st = (Normal (), st))
  ∧ (∀ config listen,
       start config listen st = (Throw (Error "Http server is not setup up yet"), st))
  ∧ (∀ fn, registerOnPreAuth fn st = (Throw (Error "Server is not created yet"), st))
  ∧ (∀ fn, registerOnPostAuth fn st = (Throw (Error "Server is not created yet"), st))
  ∧ (∀ fn, registerOnPreResponse fn st = (Throw (Error "Server is not created yet"), st))
  ∧ (∀ router, (registerRouter router st).1 = Normal ()).
Proof.
  intros st. subst st.
  unfold stop, start, registerOnPreAuth, registerOnPostAuth, registerOnPreResponse,
    registerRouter, isListening. unfold_method. cbn.
  destruct (server this) as [srv|] eqn:E; cbn; rewrite ?E.
  - split; [done|]. split; [done|]. by repeat split.
  - split; [done|]. split; [by intros [? ?]|]. by repeat split.
Qed.

Lemma stop_releases_listener_witness :
  let running := this (run [Call_start Sample.config None] Sample.configured) in
  stop (Some (Error "listener is busy")) running
    = (Throw (Error "listener is busy"), running)
  ∧ stop (Some (Error "listener is busy")) newHttpServer = (Normal (), newHttpServer).
Proof.
  intros running. split.
  - destruct (stop_releases_listener running (Error "listener is busy"))
      as (_ & H & _).
    apply H. by eexists.
  - destruct (stop_releases_listener newHttpServer (Error "listener is busy"))
      as (H & _).
    exact (H eq_refl _).
Defined.



End Lifecycle.

(** ** Lifecycle hooks *)

Section Hooks.


End Hooks.


(** ** The set of routers *)

Section RouterSet.

Lemma Set_has_false (router : Router) (routers : list Router) :
  Set_has router routers = false → router_id router ∉ map router_id routers.
Proof.
  unfold Set_has. induction routers as [|r routers IH]; cbn; intros H.
  - apply not_elem_of_nil.
  - apply orb_false_iff in H as [Hr H].
    apply not_elem_of_cons. split; [|by apply IH].
    intros Heq. by rewrite Heq, Pos.eqb_refl in Hr.
Qed.

Lemma Set_add_NoDup (router : Router) (routers : list Router) :
  NoDup (map router_id routers) → NoDup (map router_id (Set_add router routers)).
Proof.
  intros Hnd. unfold Set_add.
  destruct (Set_has router routers) eqn:E; [done|].
  rewrite map_app. cbn. apply NoDup_app. split; [done|]. split.
  - intros x Hx ->%list_elem_of_singleton. by apply (Set_has_false _ _ E).
  - apply NoDup_singleton.
Qed.

(** Only [registerRouter] touches the set of routers, and only by adding. *)
Lemma exec_registeredRouters (c : Call) (w : World) :
  registeredRouters (this (exec c w).2) = registeredRouters (this w)
  ∨ ∃ router, c = Call_registerRouter router
              ∧ registeredRouters (this (exec c w).2)
                = Set_add router (registeredRouters (this w)).
Proof.
  destruct c as [config|config listen|halt|router|fn|fn|fn|fn co bp|storage|request bp
                |replaced req existing];
    try (left; unfold_exec; cbn; repeat (case_match; cbn in *; simplify_eq); done).
  unfold_exec. cbn.
  destruct (match server (this w) with Some srv => listening srv | None => false end);
    cbn; [by left|right]. by exists router.
Qed.

(** X6: after any history of a new server object no router is in the set of
    routers twice: the routers of the set have pairwise different
    identities. *)
Theorem registeredRouters_NoDup (calls : list Call) :
  NoDup (map router_id (registeredRouters (this (run calls newWorld)))).
Proof.
  assert (∀ w, NoDup (map router_id (registeredRouters (this w))) →
               NoDup (map router_id (registeredRouters (this (run calls w))))) as H.
  { induction calls as [|c calls IH]; intros w Hnd; [done|].
    rewrite run_cons. apply IH.
    destruct (exec_registeredRouters c w) as [->|(router & _ & ->)]; [done|].
    by apply Set_add_NoDup. }
  apply H. cbn. apply NoDup_nil_2.
Qed.

(** X7: a router, once registered, stays registered whatever happens to the
    server object afterwards, [stop] and a new [setup] included; and
    registering it again changes nothing. *)
Theorem registeredRouters_kept (calls : list Call) (w : World) (router : Router) :
  router ∈ registeredRouters (this w) →
  router ∈ registeredRouters (this (run calls w))
  ∧ registeredRouters (this (exec (Call_registerRouter router) w).2)
    = registeredRouters (this w).
Proof.
  intros Hin. split.
  - revert w Hin. induction calls as [|c calls IH]; intros w Hin; [done|].
    rewrite run_cons. apply IH.
    destruct (exec_registeredRouters c w) as [->|(r & _ & ->)]; [done|].
    by apply elem_of_Set_add.
  - destruct (exec_registeredRouters (Call_registerRouter router) w)
      as [->|(r & [= <-] & ->)]; [done|].
    unfold Set_add.
    assert (Set_has router (registeredRouters (this w)) = true) as ->; [|done].
    unfold Set_has. apply existsb_exists. exists router.
    split; [by apply list_elem_of_In|apply Pos.eqb_refl].
Qed.

Lemma registeredRouters_kept_witness :
  Sample.router
    ∈ registeredRouters
        (this (run [Call_start Sample.config None; Call_stop None; Call_setup Sample.config]
                   Sample.configured))
  ∧ registeredRouters (this (exec (Call_registerRouter Sample.router) Sample.configured).2)
    = [Sample.router].
Proof.
  assert (Sample.router ∈ registeredRouters (this Sample.configured)) as Hin
    by apply list_elem_of_here.
  destruct (registeredRouters_kept
              [Call_start Sample.config None; Call_stop None; Call_setup Sample.config]
              Sample.configured Sample.router Hin) as [H1 H2].
  split; [exact H1 | exact H2].
Defined.

End RouterSet.

(** ** What the per-request maps keep *)

Section RequestMaps.

(** Only [setBasePathFor] writes the base path map, and only at an identity
    that has no override. *)
Lemma exec_basePathCache (c : Call) (w : World) (im : IncomingMessage) (v : string) :
  basePathCache (this w) !! im = Some v →
  basePathCache (this (exec c w).2) !! im = Some v.
Proof.
  intros Hv.
  destruct c as [config|config listen|halt|router|fn|fn|fn|fn co bp|storage|request bp
                |replaced req existing];
    try (unfold_exec; cbn; repeat (case_match; cbn in *; simplify_eq); done).
  unfold_exec. cbn.
  destruct (bool_decide (is_Some (basePathCache (this w) !! incomingMessageOf request)))
    eqn:E; cbn; [done|].
  apply bool_decide_eq_false in E.
  rewrite lookup_insert_ne; [done|]. intros Heq. apply E. rewrite Heq. by eexists.
Qed.

(** X8: the base path override of a request identity is written once and
    for all: whatever happens to the server object afterwards, the override
    is the same and [getBasePathFor] answers the server's base path followed
    by it. *)
Theorem basePath_override_kept (calls : list Call) (w : World) (config : HttpConfig)
    (request : AnyRequest) (v : string) :
  basePathCache (this w) !! incomingMessageOf request = Some v →
  let st := this (run calls w) in
  basePathCache st !! incomingMessageOf request = Some v
  ∧ getBasePathFor config request st
    = (Normal (default "" (basePath config) +:+ v), st).
Proof.
  intros Hv st.
  assert (basePathCache st !! incomingMessageOf request = Some v) as Hkept.
  { subst st. revert w Hv. induction calls as [|c calls IH]; intros w Hv; [done|].
    rewrite run_cons. apply IH. by apply exec_basePathCache. }
  split; [done|]. unfold getBasePathFor, gets. rewrite Hkept. cbn.
  by rewrite !or_else_empty.
Qed.

Lemma basePath_override_kept_witness :
  let request := OfHapi Sample.request in
  let w := (exec (Call_setBasePathFor request "/s/ops") Sample.configured).2 in
  let st := this (run [Call_setBasePathFor request "/s/dev"; Call_stop None;
                       Call_setup Sample.config] w) in
  getBasePathFor Sample.config request st = (Normal "/app/s/ops", st).
Proof.
  intros request w st.
  destruct (basePath_override_kept
              [Call_setBasePathFor request "/s/dev"; Call_stop None; Call_setup Sample.config]
              w Sample.config request "/s/ops" eq_refl) as [_ H].
  exact H.
Defined.

(** Auth records are written by the scheme's callback only, and never
    removed. *)
Lemma exec_authState (c : Call) (w : World) (im : IncomingMessage) :
  is_Some (authState (this w) !! im) →
  is_Some (authState (this (exec c w).2) !! im).
Proof.
  intros Hv.
  destruct c as [config|config listen|halt|router|fn|fn|fn|fn co bp|storage|request bp
                |replaced req existing];
    try (unfold_exec; cbn; repeat (case_match; cbn in *; simplify_eq); done).
  unfold exec. unfold_method. cbn.
  destruct (login_scheme w replaced) as [sch|]; cbn; [|done].
  unfold interceptAuth, onAuthSuccess, on_this. unfold_method.
  destruct (scheme_handler sch _ existing); cbn; try done.
  destruct (decide (raw_req req = im)) as [->|Hne].
  - rewrite lookup_insert_eq. by eexists.
  - by rewrite lookup_insert_ne.
Qed.

(** X9: [isAuthenticated] answers whether the request identity has an auth
    record.  After any history of a new server object it can only be true if
    a [registerAuth] call of the history has passed its checks; and once it
    is true for a request it stays true, whatever happens to the server
    object afterwards. *)
Theorem isAuthenticated_record (calls later : list Call) (request : AnyRequest) :
  let w := run calls newWorld in
  ∃ b,
    isAuthenticated request (this w) = (Normal b, this w)
    ∧ (b = true ↔ is_Some (authState (this w) !! incomingMessageOf request))
    ∧ (b = true → auth_ever_registered calls newWorld = true)
    ∧ (b = true →
       isAuthenticated request (this (run later w)) = (Normal true, this (run later w))).
Proof.
  intros w.
  assert (∀ st, isAuthenticated request st =
    (Normal (bool_decide (is_Some (authState st !! incomingMessageOf request))), st))
    as Heval.
  { intros st. unfold isAuthenticated, getAuthData. unfold_method. cbn.
    by destruct (bool_decide _), (authRegistered st). }
  eexists. split; [apply Heval|]. split; [apply bool_decide_eq_true|]. split.
  - intros Hb%bool_decide_eq_true.
    destruct (auth_ever_registered calls newWorld) eqn:Eever; [done|].
    destruct (run_auth_untouched calls newWorld) as (Hempty & _).
    + intros _. apply newWorld_auth_untouched.
    + by rewrite run_authRegistered.
    + fold w in Hempty. rewrite Hempty, lookup_empty in Hb. by destruct Hb.
  - intros Hb%bool_decide_eq_true. rewrite Heval. f_equal. f_equal.
    apply bool_decide_eq_true.
    clear Heval. subst w. revert Hb. generalize (run calls newWorld). clear calls.
    induction later as [|c later IH]; intros w Hb; [done|].
    rewrite run_cons. apply IH. by apply exec_authState.
Qed.

End RequestMaps.

(** ** Registering authentication, end to end *)

Section AuthRegistration.

(** With the flag set, a [registerAuth] call is not one that passes. *)
Lemma exec_registerAuth_registered (w : World) (fn : AuthenticationHandler)
    (co : SessionStorageCookieOptions) (bp : option string) :
  authRegistered (this w) = true →
  is_throw (exec (Call_registerAuth fn co bp) w).1 = true.
Proof.
  intros Hflag. unfold exec, on_this. unfold_method.
  by destruct (registerAuth_enter_registered (this w) Hflag) as (e & -> & _).
Qed.



(** X11: in any history, from any state of the server object, at most one
    [registerAuth] call passes its checks, and none does if the
    registered-auth flag was set before: the flag after the history counts
    the flag before it and the calls that passed. *)
Theorem registerAuth_passes_once (calls : list Call) (w : World) :
  registerAuth_passes calls w + Nat.b2n (authRegistered (this w))
    = Nat.b2n (authRegistered (this (run calls w)))
  ∧ registerAuth_passes calls w ≤ 1.
Proof.
  assert (registerAuth_passes calls w + Nat.b2n (authRegistered (this w))
          = Nat.b2n (authRegistered (this (run calls w)))) as Hcount.
  { revert w. induction calls as [|c calls IH]; intros w; [done|].
    rewrite run_cons. cbn [registerAuth_passes]. rewrite <- IH.
    rewrite exec_authRegistered.
    destruct (authRegistered (this w)) eqn:Hflag; cbn [orb Nat.b2n].
    - destruct c as [| | | | | | |fn co bp| | |]; cbn -[exec]; try lia.
      rewrite (exec_registerAuth_registered w fn co bp Hflag). lia.
    - destruct c as [| | | | | | |fn co bp| | |]; cbn -[exec]; try lia.
      destruct (is_throw _); cbn -[exec]; lia. }
  split; [done|].
  destruct (authRegistered (this (run calls w))), (authRegistered (this w));
    cbn in Hcount; lia.
Qed.



(** X13: if the server object is stopped while a [registerAuth] call waits
    for its session storage factory, the call fails with a [TypeError] when
    the factory answers: there is no server to install the scheme on.  The
    registered-auth flag stays set all the same. *)
Theorem registerAuth_stopped_meanwhile (w : World) (fn : AuthenticationHandler)
    (co : SessionStorageCookieOptions) (bp : option string)
    (storage : SessionStorageFactory) :
  (exec (Call_registerAuth fn co bp) w).1 = Normal () →
  suspended w = [] →
  let w1 := run [Call_registerAuth fn co bp; Call_stop None] w in
  (∃ msg, (exec (Settle_registerAuth (Normal storage)) w1).1 = Throw (TypeError msg))
  ∧ this (exec (Settle_registerAuth (Normal storage)) w1).2 = this w1
  ∧ server (this w1) = None
  ∧ authRegistered (this w1) = true.
Proof.
  intros Hpass Hsusp w1. subst w1. unfold run. cbn [foldl].
  destruct (exec_registerAuth_passes _ _ _ _ Hpass) as ([srv Hsrv] & Hflag & ->).
  rewrite Hsusp. unfold_exec. cbn. rewrite Hsrv. cbn.
  split; [by eexists|done].
Qed.

Lemma registerAuth_stopped_meanwhile_witness :
  let w1 := run [Call_registerAuth Sample.letIn Sample.cookieOptions None; Call_stop None]
                Sample.configured in
  (∃ msg, (exec (Settle_registerAuth (Normal Sample.storage)) w1).1
          = Throw (TypeError msg))
  ∧ authRegistered (this w1) = true.
Proof.
  intros w1.
  destruct (registerAuth_stopped_meanwhile Sample.configured Sample.letIn
              Sample.cookieOptions None Sample.storage eq_refl eq_refl)
    as (H1 & _ & _ & H2).
  split; [exact H1 | exact H2].
Defined.

End AuthRegistration.

(** ** Authentication that is registered but not there *)

Section AuthLost.

Lemma foldl_Server_route_auth (f : RouterRoute → ServerRoute) (l : list RouterRoute)
    (srv : Server) :
  let srv' := foldl (λ acc route, Server_route (f route) acc) srv l in
  auth_schemes srv' = auth_schemes srv ∧ auth_default srv' = auth_default srv.
Proof.
  revert srv. induction l as [|route l IH]; intros srv; cbn; [done|].
  by destruct (IH (Server_route (f route) srv)) as (-> & ->).
Qed.

Lemma foldl_routers_auth (a : bool) (routers : list Router) (srv : Server) :
  let srv' :=
    foldl (λ acc router,
             foldl (λ acc' route, Server_route (bindRoute a router route) acc')
                   acc (routes router))
          srv routers in
  auth_schemes srv' = auth_schemes srv ∧ auth_default srv' = auth_default srv.
Proof.
  revert srv. induction routers as [|router routers IH]; intros srv; cbn; [done|].
  destruct (IH (foldl (λ acc' route, Server_route (bindRoute a router route) acc')
                      srv (routes router))) as (-> & ->).
  apply foldl_Server_route_auth.
Qed.

(** [start] leaves the authentication settings of the server alone. *)
Lemma start_auth_settings (config : HttpConfig) (listen : option JsError)
    (this : HttpServer) (srv srv' : Server) :
  server this = Some srv →
  server (start config listen this).2 = Some srv' →
  auth_schemes srv' = auth_schemes srv ∧ auth_default srv' = auth_default srv.
Proof.
  intros Hsrv. unfold start. unfold_method. rewrite Hsrv. cbn.
  destruct (foldl_routers_auth (authRegistered this) (registeredRouters this) srv)
    as (Hs & Hd).
  destruct listen; cbn; intros [= <-]; cbn; by rewrite ?Hs, ?Hd.
Qed.

(** Where the authentication settings of the current server come from: from
    the server as it was, from a fresh server made by [setup], or from a
    [registerAuth] call that was waiting. *)
Lemma exec_auth_settings (c : Call) (w : World) (srv' : Server) :
  server (this (exec c w).2) = Some srv' →
  (∃ srv, server (this w) = Some srv
          ∧ auth_schemes srv' = auth_schemes srv
          ∧ auth_default srv' = auth_default srv)
  ∨ (∃ config, c = Call_setup config
               ∧ auth_schemes srv' = ∅ ∧ auth_default srv' = None)
  ∨ (∃ storage, c = Settle_registerAuth storage ∧ suspended w ≠ []).
Proof.
  destruct c as [config|config listen|halt|router|fn|fn|fn|fn co bp|storage|request bp
                |replaced req existing].
  - intros H. right. left. exists config.
    destruct (setup_returns config (this w)) as (srv & Hs & _ & _ & _ & Hsch & Hd & _).
    unfold exec, on_this in H. unfold_method. cbn in H. rewrite Hs in H. cbn in H.
    by injection H as <-.
  - intros H. left. unfold exec, on_this in H.
    destruct (server (this w)) as [srv|] eqn:E.
    + exists srv. split; [done|].
      apply (start_auth_settings config listen (this w) srv srv' E).
      by destruct (start config listen (this w)).
    + rewrite (start_unset config listen (this w) E) in H. cbn in H. congruence.
  - intros H. unfold_exec. cbn in H.
    destruct (server (this w)) as [srv|] eqn:E; [destruct halt|]; cbn in H;
      rewrite ?E in H; try congruence.
    injection H as <-. left. by exists srv.
  - intros H. left. unfold_exec. cbn in H.
    destruct (server (this w)) as [srv|] eqn:E; [destruct (listening srv)|];
      cbn in H; rewrite ?E in H; simplify_eq; by exists srv'.
  - intros H. left. unfold_exec. cbn in H.
    destruct (server (this w)) as [srv|] eqn:E; cbn in H; rewrite ?E in H;
      simplify_eq. by exists srv.
  - intros H. left. unfold_exec. cbn in H.
    destruct (server (this w)) as [srv|] eqn:E; cbn in H; rewrite ?E in H;
      simplify_eq. by exists srv.
  - intros H. left. unfold_exec. cbn in H.
    destruct (server (this w)) as [srv|] eqn:E; cbn in H; rewrite ?E in H;
      simplify_eq. by exists srv.
  - intros H. left. unfold exec, on_this in H. unfold_method.
    destruct (registerAuth_enter (this w)) as [[srv|e] st'] eqn:E.
    + apply registerAuth_enter_passes in E as (_ & _ & ->). cbn in H.
      by exists srv'.
    + apply registerAuth_enter_throws in E as ->. cbn in H. by exists srv'.
  - intros H. destruct (suspended w) as [|fn rest] eqn:Es.
    + left. unfold exec in H. unfold_method. cbn in H. rewrite Es in H. cbn in H.
      by exists srv'.
    + right. right. by exists storage.
  - intros H. left. unfold_exec. cbn in H.
    destruct (bool_decide _); cbn in H; by exists srv'.
  - intros H. left. unfold exec in H. unfold_method. cbn in H.
    destruct (login_scheme w replaced) as [sch|]; cbn in H; [|by exists srv'].
    unfold interceptAuth, onAuthSuccess, on_this in H. unfold_method.
    destruct (scheme_handler sch _ existing); cbn in H; by exists srv'.
Qed.

(** With the flag set nothing is put on the list of waiting calls. *)
Lemma exec_suspended_registered (c : Call) (w : World) :
  authRegistered (this w) = true → suspended w = [] →
  suspended (exec c w).2 = [].
Proof.
  intros Hflag Hsusp.
  destruct c as [config|config listen|halt|router|fn|fn|fn|fn co bp|storage|request bp
                |replaced req existing];
    unfold_exec; cbn; repeat (case_match; cbn in *; simplify_eq); done.
Qed.

Lemma exec_auth_lost (c : Call) (w : World) :
  auth_lost w → auth_lost (exec c w).2.
Proof.
  intros (Hflag & Hsusp & Hsrv). split; [|split].
  - by rewrite exec_authRegistered, Hflag.
  - by apply exec_suspended_registered.
  - intros srv' H.
    destruct (exec_auth_settings c w srv' H)
      as [(srv & Hs & -> & ->)|[(config & _ & -> & ->)|(storage & _ & Hne)]];
      [by apply Hsrv|done|done].
Qed.

Lemma run_auth_lost (calls : list Call) (w : World) :
  auth_lost w → auth_lost (run calls w).
Proof.
  revert w. induction calls as [|c calls IH]; intros w H; [done|].
  rewrite run_cons. apply IH. by apply exec_auth_lost.
Qed.

(** What follows from [auth_lost]. *)
Lemma auth_lost_consequences (w : World) :
  auth_lost w →
  (∀ srv, server (this w) = Some srv →
     auth_schemes srv !! "login" = None ∧ auth_default srv = None)
  ∧ (∀ fn co bp, is_throw (exec (Call_registerAuth fn co bp) w).1 = true)
  ∧ (∀ router route, authRequired route = true →
       sr_auth (bindRoute (authRegistered (this w)) router route) = AuthDefault).
Proof.
  intros (Hflag & Hsusp & Hsrv). split; [done|]. split.
  - intros fn co bp. by apply exec_registerAuth_registered.
  - intros router route Hreq. unfold bindRoute. cbn. by rewrite Hflag, Hreq.
Qed.

(** X14: the registered-auth flag outlives the server it was set for.  Once
    the flag is set and no [registerAuth] call is waiting, a new [setup]
    gives the server object a listener without a [login] scheme and without
    a default strategy, and whatever happens afterwards the current server
    never has them: every [registerAuth] call throws.  [start] still leaves
    the routes that require authentication to the default strategy. *)
Theorem setup_again_loses_auth (w : World) (config : HttpConfig) (calls : list Call) :
  authRegistered (this w) = true →
  suspended w = [] →
  let w' := run calls (exec (Call_setup config) w).2 in
  is_Some (server (this (exec (Call_setup config) w).2))
  ∧ (∀ srv, server (this w') = Some srv →
       auth_schemes srv !! "login" = None ∧ auth_default srv = None)
  ∧ (∀ fn co bp, is_throw (exec (Call_registerAuth fn co bp) w').1 = true)
  ∧ (∀ router route, authRequired route = true →
       sr_auth (bindRoute (authRegistered (this w')) router route) = AuthDefault).
Proof.
  intros Hflag Hsusp w'.
  destruct (setup_returns config (this w)) as (srv & Hs & _ & _ & _ & Hsch & Hd & _).
  assert ((exec (Call_setup config) w).2 =
          {| this := set_server (Some srv) (this w); suspended := suspended w;
             detached := detached w ++ option_list (server (this w)) |}) as Hw.
  { unfold exec, on_this. unfold_method. cbn. by rewrite Hs. }
  split; [rewrite Hw; by eexists|].
  apply auth_lost_consequences. subst w'. apply run_auth_lost.
  rewrite Hw. split; [done|]. split; [done|].
  intros srv0 [= <-]. by rewrite Hsch, Hd.
Qed.

Lemma setup_again_loses_auth_witness :
  let w' := run [Call_start Sample.config None]
                (exec (Call_setup Sample.config)
                      (run [Call_stop None] Sample.secured)).2 in
  (∀ srv, server (this w') = Some srv →
     auth_schemes srv !! "login" = None ∧ auth_default srv = None)
  ∧ is_throw (exec (Call_registerAuth Sample.letIn Sample.cookieOptions None) w').1
    = true.
Proof.
  intros w'.
  destruct (setup_again_loses_auth (run [Call_stop None] Sample.secured) Sample.config
              [Call_start Sample.config None] eq_refl eq_refl)
    as (_ & H1 & H2 & _).
  split; [exact H1 | exact (H2 _ _ _)].
Defined.

(** While the flag is unset the current server has no default strategy. *)
Lemma run_no_default (calls : list Call) (w : World) :
  (authRegistered (this w) = false →
   auth_untouched w ∧ ∀ srv, server (this w) = Some srv → auth_default srv = None) →
  authRegistered (this (run calls w)) = false →
  ∀ srv, server (this (run calls w)) = Some srv → auth_default srv = None.
Proof.
  revert w. induction calls as [|c calls IH]; intros w Hinv Hflag.
  - by apply Hinv.
  - rewrite run_cons in *. apply IH; [|done].
    intros Hafter. pose proof Hafter as Hbefore.
    rewrite exec_authRegistered in Hbefore.
    apply orb_false_iff in Hbefore as [Hbefore _].
    destruct (Hinv Hbefore) as [Hun Hnd].
    split; [by apply exec_auth_untouched|].
    intros srv' H.
    destruct (exec_auth_settings c w srv' H)
      as [(srv & Hs & _ & ->)|[(config & _ & _ & ->)|(storage & _ & Hne)]];
      [by apply Hnd|done|].
    by destruct Hun as (_ & Hsusp & _).
Qed.

(** X15: a [registerAuth] call whose session storage factory fails leaves
    the instance without authentication for good.  After any history of a
    new server object, if the call passes its checks and the factory then
    fails, then whatever happens afterwards the current server has no
    [login] scheme and no default strategy, every [registerAuth] call
    throws, and [start] leaves the routes that require authentication to
    the default strategy. *)
Theorem failed_registerAuth_loses_auth (calls later : list Call)
    (fn : AuthenticationHandler) (co : SessionStorageCookieOptions)
    (bp : option string) (e : JsError) :
  let w := run calls newWorld in
  (exec (Call_registerAuth fn co bp) w).1 = Normal () →
  let w' := run later (run [Call_registerAuth fn co bp;
                            Settle_registerAuth (Throw e)] w) in
  (∀ srv, server (this w') = Some srv →
     auth_schemes srv !! "login" = None ∧ auth_default srv = None)
  ∧ (∀ fn' co' bp', is_throw (exec (Call_registerAuth fn' co' bp') w').1 = true)
  ∧ (∀ router route, authRequired route = true →
       sr_auth (bindRoute (authRegistered (this w')) router route) = AuthDefault).
Proof.
  intros w Hpass w'.
  destruct (exec_registerAuth_passes _ _ _ _ Hpass) as (_ & Hflag & Hw1).
  assert (auth_untouched w) as Hun.
  { apply run_auth_untouched; [intros _; apply newWorld_auth_untouched|done]. }
  assert (∀ srv, server (this w) = Some srv → auth_default srv = None) as Hnd.
  { apply run_no_default; [|done]. intros _.
    split; [apply newWorld_auth_untouched|done]. }
  destruct Hun as (_ & Hsusp & Hcur & _).
  apply auth_lost_consequences. subst w'. apply run_auth_lost.
  unfold run at 1. cbn [foldl]. rewrite Hw1, Hsusp.
  unfold exec, on_this. unfold_method. cbn.
  split; [done|]. split; [done|].
  intros srv Hsrv. split; [by apply Hcur|by apply Hnd].
Qed.

Lemma failed_registerAuth_loses_auth_witness :
  let w' := run [Call_start Sample.config None]
                (run [Call_registerAuth Sample.letIn Sample.cookieOptions None;
                      Settle_registerAuth (Throw (Error "cookie plugin failed"))]
                     (run [Call_setup Sample.config; Call_registerRouter Sample.router]
                          newWorld)) in
  (∀ srv, server (this w') = Some srv →
     auth_schemes srv !! "login" = None ∧ auth_default srv = None)
  ∧ ∃ srv, server (this w') = Some srv
           ∧ map sr_auth (table srv) = [AuthDefault; AuthOff].
Proof.
  intros w'.
  destruct (failed_registerAuth_loses_auth
              [Call_setup Sample.config; Call_registerRouter Sample.router]
              [Call_start Sample.config None]
              Sample.letIn Sample.cookieOptions None (Error "cookie plugin failed")
              eq_refl) as (H1 & _).
  split; [exact H1|].
  eexists. split; reflexivity.
Defined.

End AuthLost.
